(** * MikeDPhillips/Code-Samples: the assessor clean-up script and the
      T1 slice extraction script, embedded and verified.

    Two Python scripts are modelled:
    - [mri_image_management/delete_assessors.py] (module [DeleteAssessors]),
    - [mri_segmentation/mri_t1_segmentation_overlay.py] (module [Overlay]).

    Python code that raises is modelled in a state-and-exception monad
    [M St]; what the scripts print, and the calls they make to the
    plotting, imaging and file libraries, are recorded in the state.

    The file has the run-time ([Py]), the two scripts, the notions and the
    sample data the properties are stated with ([CleanupSpec],
    [ExtractionSpec]), and then the properties, script by script. *)

From Stdlib Require Import ZArith Lia Ascii String DecimalString Sorted.
From Stdlib Require Import DecimalNat Permutation.
From stdpp Require Import base option list strings gmap.
From stdpp Require Import sorting.

Local Open Scope Z_scope.

(* ===================================================================== *)
(** ** Python run-time: exceptions, outcomes, the monad *)
(* ===================================================================== *)

Module Py.

(** The exceptions the two scripts can raise. *)
Inductive Exn : Type :=
| ReadTimeout                       (* requests.exceptions.ReadTimeout *)
| RecursionError
| IndexError
| KeyError (k : Z)
| UnboundLocalError (var : string)
| FileNotFoundError (path : string)
| SameFileError (path : string)
| UnicodeDecodeError (path : string)
| ImageFileError (path : string).    (* nibabel: not an image file *)

Inductive Outcome (A : Type) : Type :=
| Return (a : A)
| Raise (e : Exn).
Arguments Return {A} a.
Arguments Raise {A} e.

(** A computation over a state [St] that returns or raises. *)
Definition M (St A : Type) : Type := St → Outcome A * St.

Definition ret {St A} (a : A) : M St A := λ s, (Return a, s).

Definition bind {St A B} (m : M St A) (f : A → M St B) : M St B :=
  λ s, match m s with
       | (Return a, s') => f a s'
       | (Raise e, s') => (Raise e, s')
       end.

Definition raise {St A} (e : Exn) : M St A := λ s, (Raise e, s).

(** [try: m except: h], the handler decides which exceptions it takes. *)
Definition try_except {St A} (m : M St A) (h : Exn → M St A) : M St A :=
  λ s, match m s with
       | (Return a, s') => (Return a, s')
       | (Raise e, s') => h e s'
       end.

Definition get {St} : M St St := λ s, (Return s, s).
Definition modify {St} (f : St → St) : M St unit := λ s, (Return tt, f s).

(** Lift a pure outcome. *)
Definition lift {St A} (o : Outcome A) : M St A := λ s, (o, s).

Declare Scope py_scope.
Delimit Scope py_scope with py.
Notation "x <~ c1 ;; c2" := (bind c1 (λ x, c2))
  (at level 100, c1 at next level, right associativity) : py_scope.
Notation "c1 ;;; c2" := (bind c1 (λ _, c2))
  (at level 100, right associativity) : py_scope.

Local Open Scope py_scope.

(** [for x in l: body x]; [continue] is an early [ret tt] of the body. *)
Fixpoint for_each {St A} (l : list A) (body : A → M St unit) : M St unit :=
  match l with
  | [] => ret tt
  | x :: l' => body x ;;; for_each l' body
  end.

(** A list comprehension [[a for a in l if p a]] whose test can raise. *)
Fixpoint filter_raising {A} (p : A → Outcome bool) (l : list A)
  : Outcome (list A) :=
  match l with
  | [] => Return []
  | a :: l' =>
      match p a with
      | Raise e => Raise e
      | Return b =>
          match filter_raising p l' with
          | Raise e => Raise e
          | Return r => Return (if b then a :: r else r)
          end
      end
  end.

(** *** Strings *)

Definition startswith (p s : string) : bool := String.prefix p s.

(** [sub in s] *)
Fixpoint contains (sub s : string) : bool :=
  startswith sub s ||
  match s with
  | EmptyString => false
  | String _ s' => contains sub s'
  end.

Definition rev_string (s : string) : string :=
  string_of_list_ascii (rev (list_ascii_of_string s)).

(** [s.split(sep)] for a non-empty [sep]: scans left to right; [skip]
    counts the characters of a separator still to be passed over, [cur]
    is the current token, reversed. *)
Fixpoint split_go (sep : string) (skip : nat) (cur : string) (s : string)
  : list string :=
  match s with
  | EmptyString => [rev_string cur]
  | String c s' =>
      match skip with
      | S k => split_go sep k cur s'
      | O =>
          if startswith sep s
          then rev_string cur :: split_go sep (String.length sep - 1) EmptyString s'
          else split_go sep 0 (String c cur) s'
      end
  end.

Definition split (sep s : string) : list string := split_go sep 0 EmptyString s.

(** [sep.join(l)] *)
Fixpoint join (sep : string) (l : list string) : string :=
  match l with
  | [] => EmptyString
  | [x] => x
  | x :: l' => x +:+ sep +:+ join sep l'
  end.

(** [s.replace(old, new)] for a non-empty [old]: every occurrence, left to
    right, which is [new.join(s.split(old))]. *)
Definition replace (old new s : string) : string := join new (split old s).

(** [s.endswith(p)] *)
Definition endswith (p s : string) : bool :=
  startswith (rev_string p) (rev_string s).

(** [l[i]] *)
Definition index {A} (l : list A) (i : nat) : Outcome A :=
  match l !! i with
  | Some x => Return x
  | None => Raise IndexError
  end.

(** [c.isdigit()] on ASCII. *)
Definition isdigit (c : ascii) : bool :=
  let n := nat_of_ascii c in (48 <=? n)%nat && (n <=? 57)%nat.

(** [c.isspace()] on ASCII: tab to carriage return, the four separators
    0x1c to 0x1f, and the space. *)
Definition isspace (c : ascii) : bool :=
  let n := nat_of_ascii c in
  ((9 <=? n)%nat && (n <=? 13)%nat) || ((28 <=? n)%nat && (n <=? 32)%nat).

Fixpoint lstrip (s : string) : string :=
  match s with
  | EmptyString => EmptyString
  | String c s' => if isspace c then lstrip s' else s
  end.

(** [s.strip()] *)
Definition strip (s : string) : string :=
  rev_string (lstrip (rev_string (lstrip s))).

(** [f"{n}"] and [f"{n:03d}"] for a natural number. *)
Definition str_of_nat (n : nat) : string :=
  NilEmpty.string_of_uint (Nat.to_uint n).

Fixpoint zeros (k : nat) : string :=
  match k with
  | O => EmptyString
  | S k' => String "0"%char (zeros k')
  end.

Definition format_03d (n : nat) : string :=
  let s := str_of_nat n in zeros (3 - String.length s) +:+ s.

(** *** os.path (posixpath) *)

(** [p[:i], p[i:]] for [i = p.rfind('/') + 1]. *)
Fixpoint cut_last_sep (p : string) : string * string :=
  match p with
  | EmptyString => (EmptyString, EmptyString)
  | String c p' =>
      let '(h, t) := cut_last_sep p' in
      match h with
      | String _ _ => (String c h, t)
      | EmptyString =>
          if Ascii.eqb c "/"%char then (String c EmptyString, p')
          else (EmptyString, String c t)
      end
  end.

Fixpoint lstrip_sep (s : string) : string :=
  match s with
  | String "/"%char s' => lstrip_sep s'
  | _ => s
  end.

Definition rstrip_sep (s : string) : string :=
  rev_string (lstrip_sep (rev_string s)).

Definition path_split (p : string) : string * string :=
  let '(head, tail) := cut_last_sep p in
  (* head.rstrip('/') unless head is empty or all slashes *)
  match rstrip_sep head with
  | EmptyString => (head, tail)
  | h => (h, tail)
  end.

Definition basename (p : string) : string := snd (cut_last_sep p).

Definition endswith_sep (s : string) : bool :=
  match rev_string s with
  | String "/"%char _ => true
  | _ => false
  end.

(** [os.path.join(a, b)] *)
Definition path_join (a b : string) : string :=
  if startswith "/" b then b
  else match a with
       | EmptyString => b
       | _ => if endswith_sep a then a +:+ b else a +:+ "/" +:+ b
       end.

(** [p[:i], p[i:]] for [i = p.rfind('.')], when there is a dot. *)
Fixpoint cut_last_dot (p : string) : option (string * string) :=
  match p with
  | EmptyString => None
  | String c p' =>
      match cut_last_dot p' with
      | Some (r, e) => Some (String c r, e)
      | None => if Ascii.eqb c "."%char then Some (EmptyString, p) else None
      end
  end.

Fixpoint all_dots (s : string) : bool :=
  match s with
  | EmptyString => true
  | String c s' => Ascii.eqb c "."%char && all_dots s'
  end.

(** [os.path.splitext(p)]: the extension starts at the last dot of the
    last path component, leading dots of the component aside. *)
Definition splitext (p : string) : string * string :=
  let '(dir, name) := cut_last_sep p in
  match cut_last_dot name with
  | Some (r, e) => if all_dots r then (p, EmptyString) else (dir +:+ r, e)
  | None => (p, EmptyString)
  end.

End Py.

Import Py.
Local Open Scope py_scope.

(* ===================================================================== *)
(** ** mri_image_management/delete_assessors.py *)
(* ===================================================================== *)

Module DeleteAssessors.

(** An assessor record as [list_project_assessors] returns it (the keys the
    script reads). *)
Record Assessor : Type := {
  project_id : string;
  subject_label : string;
  session_label : string;
  label : string;
}.

(** What the archive does with the next request it receives. *)
Inductive Response : Type :=
| Answer
| TimeOut.

(** What the script prints, one constructor per [print] call. *)
Inductive Msg : Type :=
| MsgRetry                                   (* ReadTimeout error. Trying again. *)
| MsgNoAssessors                             (* No assessors to delete. *)
| MsgWorking (count remaining : nat)         (* Working on #c. r remaining. *)
| MsgDeleted (l : string)                    (* Deleted l *)
| MsgFailed (l : string)                     (* Failed to delete l *)
| MsgDeletingSubjects (projects subjects : list string)
| MsgDeletingOrphans (projects : list string).

(** Modelled from the spec: the archive client that
    [my_utils.get_interface()] returns, a module that is not among the
    sources. The archive holds assessor records; its operations are the
    listing of the assessors of a project, the selection of an assessor by
    its four-part key, the existence check and the deletion; talking to it
    can time out. [World] is the archive behind the [xnat] object, with
    standard output: [pending] scripts the archive's next responses, one
    per request; once it is used up every request is answered. *)
Record World : Type := {
  assessors : list Assessor;
  pending : list Response;
  stdout : list Msg;
}.

Definition print (m : Msg) : M World unit :=
  modify (λ w, {| assessors := assessors w; pending := pending w;
                  stdout := stdout w ++ [m] |}).

(** Modelled from the spec: one request to the archive. It consumes the
    next scripted response and raises [ReadTimeout] when the archive does
    not answer; a request that times out leaves the archive as it was. *)
Definition request : M World unit :=
  λ w, match pending w with
       | [] => (Return tt, w)
       | r :: rs =>
           let w' := {| assessors := assessors w; pending := rs;
                        stdout := stdout w |} in
           match r with
           | Answer => (Return tt, w')
           | TimeOut => (Raise ReadTimeout, w')
           end
       end.

(** Modelled from the spec: a selected assessor is its four-part key;
    selecting sends nothing. *)
Record Selected : Type := {
  sel_proj : string; sel_subj : string; sel_sess : string; sel_assr : string;
}.

(** Modelled from the spec: [xnat.select_assessor(proj, subj, sess, assr)] *)
Definition select_assessor (proj subj sess assr : string) : M World Selected :=
  ret {| sel_proj := proj; sel_subj := subj; sel_sess := sess;
         sel_assr := assr |}.

(** The record is the one the key selects. *)
Definition matches (k : Selected) (a : Assessor) : bool :=
  String.eqb (project_id a) (sel_proj k) &&
  String.eqb (subject_label a) (sel_subj k) &&
  String.eqb (session_label a) (sel_sess k) &&
  String.eqb (label a) (sel_assr k).

(** Modelled from the spec: [selected.exists()], the existence check. *)
Definition exists_ (k : Selected) : M World bool :=
  request ;;;
  w <~ get ;;
  ret (existsb (matches k) (assessors w)).

(** Modelled from the spec: [selected.delete(True)] *)
Definition delete (k : Selected) : M World unit :=
  request ;;;
  modify (λ w, {| assessors := List.filter (λ a, negb (matches k a)) (assessors w);
                  pending := pending w; stdout := stdout w |}).

(** Modelled from the spec: [xnat.list_project_assessors(proj)], the
    records of the project. *)
Definition list_project_assessors (proj : string) : M World (list Assessor) :=
  request ;;;
  w <~ get ;;
  ret (List.filter (λ a, String.eqb (project_id a) proj) (assessors w)).

(** [delete_assessor(xnat, proj, subj, sess, assr)]. The value is [True],
    [False] or [None]: [Some true], [Some false] or [None]. [depth] is the
    number of frames the interpreter still allows; at none the call raises
    [RecursionError]. *)
Fixpoint delete_assessor (depth : nat) (proj subj sess assr : string)
  : M World (option bool) :=
  match depth with
  | O => raise RecursionError
  | S depth' =>
      try_except
        (selected <~ select_assessor proj subj sess assr ;;
         ex <~ exists_ selected ;;
         if ex then
           delete selected ;;;
           ret (Some true)
         else
           ret (Some false))
        (λ e, match e with
              | ReadTimeout =>
                  print MsgRetry ;;;
                  delete_assessor depth' proj subj sess assr ;;;
                  ret None
              | _ => raise e
              end)
  end.

(** Truth value of what [delete_assessor] returns. *)
Definition truthy (r : option bool) : bool :=
  match r with
  | Some true => true
  | _ => false
  end.

(** The [for s in assessors_to_delete] loop, with the running [count]. *)
Fixpoint delete_loop (depth : nat) (count total_length : nat)
    (l : list Assessor) : M World unit :=
  match l with
  | [] => ret tt
  | s :: l' =>
      let count := S count in
      print (MsgWorking count (total_length - count)) ;;;
      r <~ delete_assessor depth (project_id s) (subject_label s)
             (session_label s) (label s) ;;
      (if truthy r then print (MsgDeleted (label s))
       else print (MsgFailed (label s))) ;;;
      delete_loop depth count total_length l'
  end.

(** [delete_assessors(xnat, assessors_to_delete)] *)
Definition delete_assessors (depth : nat) (assessors_to_delete : list Assessor)
  : M World unit :=
  let count := 0%nat in
  let total_length := length assessors_to_delete in
  if (total_length =? 0)%nat then
    print MsgNoAssessors
  else
    delete_loop depth count total_length assessors_to_delete.

(** [delete_all_assessors(xnat, proj, subject)] *)
Definition delete_all_assessors (depth : nat) (proj subject : string)
  : M World unit :=
  assessors <~ list_project_assessors proj ;;
  let assessors_to_delete :=
    List.filter (λ a, String.eqb (subject_label a) subject) assessors in
  delete_assessors depth assessors_to_delete.

(** [a['label'].split('-x-')[i]] *)
Definition label_token (i : nat) (a : Assessor) : Outcome string :=
  index (split "-x-" (label a)) i.

(** [a['subject_label'] != a['label'].split('-x-')[1]] *)
Definition subject_mismatch (a : Assessor) : Outcome bool :=
  match label_token 1 a with
  | Return t => Return (negb (String.eqb (subject_label a) t))
  | Raise e => Raise e
  end.

(** [a['session_label'] != a['label'].split('-x-')[2]] *)
Definition session_mismatch (a : Assessor) : Outcome bool :=
  match label_token 2 a with
  | Return t => Return (negb (String.eqb (session_label a) t))
  | Raise e => Raise e
  end.

Definition subj_delete (assessors : list Assessor) : Outcome (list Assessor) :=
  filter_raising subject_mismatch assessors.

Definition sess_delete (assessors : list Assessor) : Outcome (list Assessor) :=
  filter_raising session_mismatch assessors.

(** Lines 110 to 114: the two subsets and their concatenation. *)
Definition orphan_candidates (assessors : list Assessor)
  : Outcome (list Assessor) :=
  match subj_delete assessors with
  | Raise e => Raise e
  | Return sd =>
      match sess_delete assessors with
      | Raise e => Raise e
      | Return ed => Return (sd ++ ed)
      end
  end.

(** [delete_orphaned_assessors(xnat, projects)] *)
Definition delete_orphaned_assessors (depth : nat) (projects : list string)
  : M World unit :=
  for_each projects (λ proj,
    assessors <~ list_project_assessors proj ;;
    assessors_to_delete <~ lift (orphan_candidates assessors) ;;
    delete_assessors depth assessors_to_delete).

(** The parsed command line: [None] when the flag is absent. *)
Record Args : Type := {
  arg_projects : option (list string);
  arg_subjects : option (list string);
}.

(** Truth value of an optional list: [None] and [[]] are false. *)
Definition nonempty {A} (o : option (list A)) : bool :=
  match o with
  | Some (_ :: _) => true
  | _ => false
  end.

Definition DEFAULT_PROJECTS : list string := ["CIBS_COPE"; "CIBS_BRAIN2"]%string.

(** The [__main__] block. *)
Definition main (depth : nat) (args : Args) : M World unit :=
  let PROJECTS :=
    if nonempty (arg_projects args) then default [] (arg_projects args)
    else DEFAULT_PROJECTS in
  let SUBJECTS :=
    if nonempty (arg_subjects args) then arg_subjects args else None in
  if nonempty SUBJECTS then
    print (MsgDeletingSubjects PROJECTS (default [] SUBJECTS))
  else
    print (MsgDeletingOrphans PROJECTS) ;;;
    delete_orphaned_assessors depth PROJECTS.

End DeleteAssessors.

(* ===================================================================== *)
(** ** mri_segmentation/mri_t1_segmentation_overlay.py *)
(* ===================================================================== *)

Module Overlay.

(** A 3D array as [get_fdata] returns it: its shape and its values. The
    segmentation holds integer labels; [int(x)] is the identity on them. *)
Record Volume : Type := {
  shape : nat * nat * nat;
  voxel : nat → nat → nat → Z;
}.

(** A figure after [imshow] of [np.rot90(plane, rot)]: the plane as the
    rows of the array, the number of quarter turns and the [origin]. *)
Record Image : Type := {
  pixels : list (list Z);
  rot : nat;
  origin_lower : bool;
}.

Inductive File : Type :=
| Nifti (v : Volume)
| Png (im : Image)
| Text (lines : list string).

(** A directory entry of a session directory: its name and the [*.nii.gz]
    candidates, the file names in its [NIFTI] sub-directory (none when the
    entry is a plain file or has no such sub-directory). *)
Record Entry : Type := {
  entry_name : string;
  nifti_names : list string;
}.

Inductive Msg : Type :=
| MsgProcessing (d : string) (remaining : nat)
| MsgIds (subj_id sess_id scan_id : string)
| MsgWarning (d : string) (n : nat)
| MsgFilesRemaining (n : nat).

(** Calls with an effect outside the process, in program order. *)
Inductive Event : Type :=
| Print (m : Msg)
| NibLoad (path : string)
| Savefig (path : string) (im : Image)
| WriteText (path : string) (lines : list string)
| CopyFile (src dst : string).

(** The file system, files by path ([fs]) and session directories by path
    with their entries in [os.listdir] order ([listing]), and the trace of
    events so far. Other directories are implicit in the paths: a write
    finds the directory it needs. *)
Record World : Type := {
  fs : gmap string File;
  listing : gmap string (list Entry);
  trace : list Event;
}.

Definition emit (e : Event) : M World unit :=
  modify (λ w, {| fs := fs w; listing := listing w; trace := trace w ++ [e] |}).

Definition store (path : string) (f : File) : M World unit :=
  modify (λ w, {| fs := <[path := f]> (fs w); listing := listing w;
                  trace := trace w |}).

Definition print (m : Msg) : M World unit := emit (Print m).

(** [fig.savefig(path, ...)] *)
Definition savefig (path : string) (im : Image) : M World unit :=
  emit (Savefig path im) ;;; store path (Png im).

(** [with open(path, "w") as f: for l in lines: f.write(f"{l}\n")] *)
Definition write_text (path : string) (lines : list string) : M World unit :=
  emit (WriteText path lines) ;;; store path (Text lines).

(** [open(path, "r").readlines()], each line without its terminator. *)
Definition readlines (path : string) : M World (list string) :=
  w <~ get ;;
  match fs w !! path with
  | None => raise (FileNotFoundError path)
  | Some (Text lines) => ret lines
  | Some _ => raise (UnicodeDecodeError path)
  end.

(** [nib.load(path).get_fdata()] *)
Definition nib_load (path : string) : M World Volume :=
  emit (NibLoad path) ;;;
  w <~ get ;;
  match fs w !! path with
  | None => raise (FileNotFoundError path)
  | Some (Nifti v) => ret v
  | Some _ => raise (ImageFileError path)
  end.

(** [shutil.copy(src, dst_dir)] *)
Definition shutil_copy (src dst_dir : string) : M World unit :=
  let dst := path_join dst_dir (basename src) in
  w <~ get ;;
  match fs w !! src with
  | None => raise (FileNotFoundError src)
  | Some f =>
      if String.eqb src dst then raise (SameFileError src)
      else emit (CopyFile src dst) ;;; store dst f
  end.

(** [os.listdir(d)] *)
Definition listdir (d : string) : M World (list string) :=
  w <~ get ;;
  match listing w !! d with
  | None => raise (FileNotFoundError d)
  | Some es => ret (map entry_name es)
  end.

Definition hidden (name : string) : bool := startswith "." name.

(** [glob.glob(os.path.join(d, f"*{scan_id}*/NIFTI/*.nii.gz"))], for a
    [scan_id] free of pattern characters: the entries of [d] whose name
    contains [scan_id], and in each the names that end in [.nii.gz];
    names with a leading dot are not matched by a leading star. *)
Definition glob_matches (d scan_id : string) (es : list Entry) : list string :=
  flat_map
    (λ e,
       if negb (hidden (entry_name e)) && contains scan_id (entry_name e)
       then map (λ f, path_join (path_join (path_join d (entry_name e)) "NIFTI") f)
                (List.filter (λ f, negb (hidden f) && endswith ".nii.gz" f)
                             (nifti_names e))
       else [])
    es.

Definition glob_scan (d scan_id : string) : M World (list string) :=
  w <~ get ;;
  ret (glob_matches d scan_id (default [] (listing w !! d))).

(** *** Slices *)

Definition shape_at (v : Volume) (view : nat) : nat :=
  let '(nx, ny, nz) := shape v in
  match view with
  | 0%nat => nx
  | 1%nat => ny
  | _ => nz
  end.

Definition table (n m : nat) (f : nat → nat → Z) : list (list Z) :=
  map (λ a, map (f a) (seq 0 m)) (seq 0 n).

(** [data[i, :, :]], [data[:, i, :]] and [data[:, :, i]] for view 0, 1
    and 2. *)
Definition plane (v : Volume) (view i : nat) : Outcome (list (list Z)) :=
  let '(nx, ny, nz) := shape v in
  if (i <? shape_at v view)%nat then
    Return match view with
           | 0%nat => table ny nz (λ y z, voxel v i y z)
           | 1%nat => table nx nz (λ x z, voxel v x i z)
           | _ => table nx ny (λ x y, voxel v x y i)
           end
  else Raise IndexError.

Fixpoint insert_unique (x : Z) (l : list Z) : list Z :=
  match l with
  | [] => [x]
  | y :: l' =>
      if x <? y then x :: l
      else if x =? y then l
      else y :: insert_unique x l'
  end.

(** [np.unique(a)]: the sorted distinct values of the flattened array. *)
Definition np_unique (a : list (list Z)) : list Z :=
  foldr insert_unique [] (concat a).

(** [[int(x) for x in slice_labels[slice_labels > 0]]] *)
Definition positive_labels (slice_labels : list Z) : list Z :=
  List.filter (λ x, 0 <? x) slice_labels.

(** [[label_dict[i] for i in labels]] *)
Fixpoint lookup_labels (label_dict : gmap Z string) (labels : list Z)
  : Outcome (list string) :=
  match labels with
  | [] => Return []
  | i :: labels' =>
      match label_dict !! i with
      | None => Raise (KeyError i)
      | Some name =>
          match lookup_labels label_dict labels' with
          | Raise e => Raise e
          | Return names => Return (name :: names)
          end
      end
  end.

Definition view_labels : list string := ["sagittal"; "coronal"; "axial"]%string.

(** [ax.imshow(np.rot90(mri_plane, k), cmap="gray", ...)] in the branch of
    the view: three quarter turns for the sagittal view, one for the other
    two; the axial view alone is drawn without [origin="lower"]. *)
Definition mri_figure (view : nat) (mri_plane : list (list Z)) : Image :=
  match view with
  | 0%nat => {| pixels := mri_plane; rot := 3; origin_lower := true |}
  | 1%nat => {| pixels := mri_plane; rot := 1; origin_lower := true |}
  | _ => {| pixels := mri_plane; rot := 1; origin_lower := false |}
  end.

(** [ax2.imshow(np.rot90(seg_plane, k), cmap="gray", origin="lower")] *)
Definition seg_figure (view : nat) (seg_plane : list (list Z)) : Image :=
  match view with
  | 0%nat => {| pixels := seg_plane; rot := 3; origin_lower := true |}
  | _ => {| pixels := seg_plane; rot := 1; origin_lower := true |}
  end.

Definition slice_filename (output_dir subject_name view_label : string)
    (i : nat) (suffix : string) : string :=
  path_join output_dir
    (subject_name +:+ "_" +:+ view_label +:+ "_" +:+ format_03d i +:+ suffix).

(** The body of the loop over [i], lines 283 to 328. *)
Definition save_slice (mri_data seg_data : Volume) (output_dir : string)
    (label_dict : gmap Z string) (subject_name : string) (save_labels : bool)
    (view : nat) (view_label : string) (i : nat) : M World unit :=
  mri_plane <~ lift (plane mri_data view i) ;;
  seg_plane <~ lift (plane seg_data view i) ;;
  let ax := mri_figure view mri_plane in
  let ax2 := seg_figure view seg_plane in
  let slice_labels := np_unique seg_plane in
  let labels := positive_labels slice_labels in
  if (length labels =? 0)%nat then
    ret tt
  else
    let filename := slice_filename output_dir subject_name view_label i ".png" in
    savefig filename ax ;;;
    let filename2 :=
      slice_filename output_dir subject_name view_label i "_SEGMENT.png" in
    savefig filename2 ax2 ;;;
    if save_labels then
      string_labels <~ lift (lookup_labels label_dict labels) ;;
      write_text (replace ".png" ".txt" filename) string_labels
    else ret tt.

(** [enumerate(l)] *)
Definition enumerate {A} (l : list A) : list (nat * A) :=
  zip (seq 0 (length l)) l.

(** [save_t1_slices_and_labels(mri_file, seg_file, output_dir, label_dict,
    subject_id, scan_id, save_labels)] *)
Definition save_t1_slices_and_labels (mri_file seg_file output_dir : string)
    (label_dict : gmap Z string) (subject_id scan_id : string)
    (save_labels : bool) : M World unit :=
  mri_data <~ nib_load mri_file ;;
  seg_data <~ nib_load seg_file ;;
  let subject_name := "cb2_" +:+ subject_id +:+ "_" +:+ scan_id in
  for_each (enumerate view_labels) (λ '(view, view_label),
    for_each (seq 0 (shape_at mri_data view)) (λ i,
      save_slice mri_data seg_data output_dir label_dict subject_name
        save_labels view view_label i)).

(** *** The walk over the session directories *)

(** The local variables of [process_all] that outlive an iteration of its
    loop over the directories; [None] is a name not yet bound. *)
Record Locals : Type := {
  matching_files : option (list string);
  scan_id : option string;
  seg_path : option string;
  mri_path : option string;
}.

Definition no_locals : Locals :=
  {| matching_files := None; scan_id := None; seg_path := None;
     mri_path := None |}.

(** Reading a local variable. *)
Definition local {A} (name : string) (o : option A) : M World A :=
  match o with
  | Some x => ret x
  | None => raise (UnboundLocalError name)
  end.

(** [x[0].isdigit()] *)
Definition starts_with_digit (x : string) : Outcome bool :=
  match x with
  | EmptyString => Raise IndexError
  | String c _ => Return (isdigit c)
  end.

(** [x.split("-")[0]]; a split has at least one token. *)
Definition first_token (x : string) : string :=
  match split "-" x with
  | t :: _ => t
  | [] => EmptyString
  end.

(** The loop over [scan_ids], lines 189 to 192: each turn prints and
    rebinds [scan_id] and [matching_files]. *)
Fixpoint scan_loop (d subj_id sess_id : string) (loc : Locals)
    (scan_ids : list string) : M World Locals :=
  match scan_ids with
  | [] => ret loc
  | id :: rest =>
      print (MsgIds subj_id sess_id id) ;;;
      files <~ glob_scan d id ;;
      scan_loop d subj_id sess_id
        {| matching_files := Some files; scan_id := Some id;
           seg_path := seg_path loc; mri_path := mri_path loc |} rest
  end.

(** The loop over [matching_files], lines 200 to 204. *)
Definition classify (loc : Locals) (f : string) : Locals :=
  if contains "seg" f then
    {| matching_files := matching_files loc; scan_id := scan_id loc;
       seg_path := Some f; mri_path := mri_path loc |}
  else
    {| matching_files := matching_files loc; scan_id := scan_id loc;
       seg_path := seg_path loc; mri_path := Some f |}.

(** One turn of the loop over [directory_list], lines 181 to 208; the
    value is the local variables it leaves. *)
Definition process_dir (result_dict : gmap Z string) (output_dir : string)
    (total i : nat) (loc : Locals) (d : string) : M World Locals :=
  print (MsgProcessing d (total - i)) ;;;
  let '(path, sess_id) := path_split d in
  let '(path, subj_id) := path_split path in
  names <~ listdir d ;;
  scan_paths <~ lift (filter_raising starts_with_digit names) ;;
  let scan_ids := map first_token scan_paths in
  match scan_ids with
  | [] => ret loc
  | _ =>
      loc <~ scan_loop d subj_id sess_id loc scan_ids ;;
      files <~ local "matching_files" (matching_files loc) ;;
      if (length files =? 0)%nat || (2 <? length files)%nat then
        print (MsgWarning d (length files)) ;;;
        ret loc
      else
        let loc := fold_left classify files loc in
        mri <~ local "mri_path" (mri_path loc) ;;
        seg <~ local "seg_path" (seg_path loc) ;;
        id <~ local "scan_id" (scan_id loc) ;;
        save_t1_slices_and_labels mri seg output_dir result_dict subj_id id true ;;;
        ret loc
  end.

Fixpoint process_loop (result_dict : gmap Z string) (output_dir : string)
    (total i : nat) (loc : Locals) (dirs : list string) : M World unit :=
  match dirs with
  | [] => ret tt
  | d :: dirs' =>
      loc' <~ process_dir result_dict output_dir total i loc d ;;
      process_loop result_dict output_dir total (S i) loc' dirs'
  end.

(** [process_all(directory_list, result_dict, output_dir)] *)
Definition process_all (directory_list : list string)
    (result_dict : gmap Z string) (output_dir : string) : M World unit :=
  process_loop result_dict output_dir (length directory_list) 0 no_locals
    directory_list.

(** *** The label table *)

(** [int(s)] for a string of decimal digits. *)
Definition int_of_string (s : string) : option Z :=
  match NilEmpty.uint_of_string s with
  | Some d => match s with
              | EmptyString => None
              | _ => Some (Z.of_nat (Nat.of_uint d))
              end
  | None => None
  end.

(** The loop of [create_dict_from_csv] over the rows after the header: a
    later row overwrites an earlier one with the same index; [None] is a
    row that raises. *)
Fixpoint dict_of_rows (rows : list (list string)) (result_dict : gmap Z string)
  : option (gmap Z string) :=
  match rows with
  | [] => Some result_dict
  | row :: rows' =>
      match row !! 1%nat, row !! 0%nat with
      | Some k, Some value =>
          match int_of_string k with
          | Some key => dict_of_rows rows' (<[key := value]> result_dict)
          | None => None
          end
      | _, _ => None
      end
  end.

(** [create_dict_from_csv], on the rows [csv.reader] yields. *)
Definition create_dict_from_csv (rows : list (list string))
  : option (gmap Z string) :=
  match rows with
  | [] => None                          (* next() on an empty reader *)
  | _header :: rows' => dict_of_rows rows' ∅
  end.

(** *** The data set manifest *)

Record DatasetRecord : Type := {
  file_name : string;
  text : list string;
}.

Section Packager.

(** [json.dumps] of a record, the library's serialisation. *)
Variable json_dumps : DatasetRecord → string.

(** [os.path.splitext(image_file)[0] + ".txt"] *)
Definition sidecar (image_file : string) : string :=
  fst (splitext image_file) +:+ ".txt".

(** Inside the [with] block the state is the world and the lines written
    so far to the open [jsonl_output]; a file-system operation leaves the
    latter alone. *)
Definition on_world {A} (m : M World A) : M (World * list string) A :=
  λ '(w, h), let '(o, w') := m w in (o, (w', h)).

(** [jsonl_output.write(line + "\n")] *)
Definition handle_write (line : string) : M (World * list string) unit :=
  modify (λ '(w, h), (w, h ++ [line])).

(** The loop of [create_hf_dataset], lines 131 to 145. *)
Fixpoint package_loop (output_dir : string) (total : nat)
    (l : list (nat * string)) : M (World * list string) unit :=
  match l with
  | [] => ret tt
  | (i, image_file) :: l' =>
      (if (i mod 1000 =? 0)%nat
       then on_world (print (MsgFilesRemaining (total - i)))
       else ret tt) ;;;
      let filename := basename image_file in
      let txt_file := sidecar image_file in
      lines <~ on_world (readlines txt_file) ;;
      let labels := map strip lines in
      let json_line := {| file_name := filename; text := labels |} in
      handle_write (json_dumps json_line) ;;;
      on_world (shutil_copy image_file output_dir) ;;;
      package_loop output_dir total l'
  end.

(** [create_hf_dataset(image_files, output_dir, json_file_name)]: opening
    the manifest for writing empties it, and leaving the [with] block,
    normally or by an exception, leaves in it the lines written. *)
Definition create_hf_dataset (image_files : list string)
    (output_dir json_file_name : string) : M World unit :=
  let output_file := path_join output_dir json_file_name in
  λ w,
    let '(_, w0) := store output_file (Text []) w in
    let '(o, (w1, h)) :=
      package_loop output_dir (length image_files) (enumerate image_files)
        (w0, []) in
    let '(_, w2) := store output_file (Text h) w1 in
    (o, w2).

End Packager.

End Overlay.

(* ===================================================================== *)
(** ** Notions the properties are stated with, and sample data *)
(* ===================================================================== *)

Module CleanupSpec.

Import DeleteAssessors.

#[export] Instance Assessor_eq_dec : EqDecision Assessor.
Proof. solve_decision. Defined.

#[export] Instance Response_eq_dec : EqDecision Response.
Proof. solve_decision. Defined.

(** The key a batch item is deleted by. *)
Definition key_of (proj subj sess assr : string) : Selected :=
  {| sel_proj := proj; sel_subj := subj; sel_sess := sess; sel_assr := assr |}.

(** The archive holds an assessor with this key. *)
Definition present (k : Selected) (w : World) : bool :=
  existsb (matches k) (assessors w).

(** The first [n] requests from now on are answered. *)
Definition answered (n : nat) (w : World) : Prop :=
  Forall (λ r, r = Answer) (take n (pending w)).

(** The number of requests to come that time out. *)
Definition timeouts (l : list Response) : nat :=
  length (List.filter (λ r, bool_decide (r = TimeOut)) l).

(** The world with other responses to come. *)
Definition with_pending (rs : list Response) (w : World) : World :=
  {| assessors := assessors w; pending := rs; stdout := stdout w |}.

(** *** The orphan finder *)

(** The tokens of the label of an assessor. *)
Definition tokens (a : Assessor) : list string := split "-x-" (label a).

(** The label has the tokens the finder reads. *)
Definition well_labelled (a : Assessor) : Prop := (3 ≤ length (tokens a))%nat.

(** The subject label differs from the second token of the label. *)
Definition subject_orphan (a : Assessor) : Prop :=
  tokens a !! 1%nat ≠ Some (subject_label a).

(** The session label differs from the third token of the label. *)
Definition session_orphan (a : Assessor) : Prop :=
  tokens a !! 2%nat ≠ Some (session_label a).

#[export] Instance subject_orphan_dec a : Decision (subject_orphan a).
Proof. unfold subject_orphan. apply _. Defined.

#[export] Instance session_orphan_dec a : Decision (session_orphan a).
Proof. unfold session_orphan. apply _. Defined.

(** How often [a] is in [l]. *)
Definition occurrences (a : Assessor) (l : list Assessor) : nat :=
  length (filter (λ b, b = a) l).

(** *** Sample archive *)

(** In place: subject and session agree with the label. *)
Definition slant_002 : Assessor :=
  {| project_id := "CIBS_COPE"; subject_label := "VCP-002";
     session_label := "VCP-002-MR1";
     label := "CIBS_COPE-x-VCP-002-x-VCP-002-MR1-x-slant_v1" |}.

(** Filed under subject VCP-009, labelled for VCP-003. *)
Definition moved_subject : Assessor :=
  {| project_id := "CIBS_COPE"; subject_label := "VCP-009";
     session_label := "VCP-003-MR1";
     label := "CIBS_COPE-x-VCP-003-x-VCP-003-MR1-x-slant_v1" |}.

(** Neither the subject nor the session agrees with the label. *)
Definition moved_both : Assessor :=
  {| project_id := "CIBS_COPE"; subject_label := "VCP-010";
     session_label := "VCP-010-MR2";
     label := "CIBS_COPE-x-VCP-004-x-VCP-004-MR1-x-slant_v1" |}.

(** One assessor in place and two orphans. *)
Definition sample_assessors : list Assessor :=
  [slant_002; moved_subject; moved_both].

(** An archive that holds the one assessor in place. *)
Definition archive (pend : list Response) : World :=
  {| assessors := [slant_002]; pending := pend; stdout := [] |}.

(** The interpreter's default recursion limit. *)
Definition recursion_limit : nat := 1000.

End CleanupSpec.

Module ExtractionSpec.

Import Overlay.

(** The label values the extractor finds in a segmentation plane. *)
Definition slice_labels_of (seg_plane : list (list Z)) : list Z :=
  positive_labels (np_unique seg_plane).

(** *** One slice *)

Definition png_name (output_dir subject_name view_label : string) (i : nat)
  : string :=
  slice_filename output_dir subject_name view_label i ".png".

Definition segment_name (output_dir subject_name view_label : string) (i : nat)
  : string :=
  slice_filename output_dir subject_name view_label i "_SEGMENT.png".

Definition txt_name (output_dir subject_name view_label : string) (i : nat)
  : string :=
  replace ".png" ".txt" (png_name output_dir subject_name view_label i).

(** The world once the two images of a slice are saved. *)
Definition with_images (png seg : string) (ax ax2 : Image) (w : World) : World :=
  {| fs := <[seg := Png ax2]> (<[png := Png ax]> (fs w));
     listing := listing w;
     trace := (trace w ++ [Savefig png ax]) ++ [Savefig seg ax2] |}.

(** The world once the sidecar is written as well. *)
Definition with_sidecar (txt : string) (names : list string) (w : World) : World :=
  {| fs := <[txt := Text names]> (fs w);
     listing := listing w;
     trace := trace w ++ [WriteText txt names] |}.

(** The image of the slice, or its sidecar, is among the events. *)
Definition image_written (png : string) (events : list Event) : Prop :=
  ∃ im, Savefig png im ∈ events.

Definition sidecar_written (txt : string) (events : list Event) : Prop :=
  ∃ lines, WriteText txt lines ∈ events.

(** *** The whole extraction *)

(** A computation that returns, or raises [KeyError] for a positive value
    the catalog does not have. *)
Definition ok_or_unknown (dict : gmap Z string) (m : M World unit) : Prop :=
  ∀ w, (∃ w', m w = (Return tt, w')) ∨
       (∃ u w', m w = (Raise (KeyError u), w') ∧ dict !! u = None ∧ 0 < u).

(** A computation that raises such a [KeyError] from any world. *)
Definition unknown (dict : gmap Z string) (m : M World unit) : Prop :=
  ∀ w, ∃ u w', m w = (Raise (KeyError u), w') ∧ dict !! u = None ∧ 0 < u.

(** The events of the turn of the loop for a slice. *)
Definition slice_events (mri seg : Volume) (out : string)
    (dict : gmap Z string) (name : string) (view : nat) (vl : string) (i : nat)
  : list Event :=
  match plane mri view i, plane seg view i with
  | Return mp, Return sp =>
      match slice_labels_of sp with
      | [] => []
      | labels =>
          let images := [Savefig (png_name out name vl i) (mri_figure view mp);
                         Savefig (segment_name out name vl i) (seg_figure view sp)] in
          match lookup_labels dict labels with
          | Return names => images ++ [WriteText (txt_name out name vl i) names]
          | Raise _ => images
          end
      end
  | _, _ => []
  end.

(** *** Sample volumes and catalog *)

(** No file, no directory, nothing done yet. *)
Definition empty_world : World := {| fs := ∅; listing := ∅; trace := [] |}.

Definition catalog_rows : list (list string) :=
  [["Label"; "Index"]; ["Left-Hippocampus"; "17"]]%string.

Definition sample_catalog : gmap Z string := {[ 17 := "Left-Hippocampus"%string ]}.

(** Two sagittal slices: the first holds label 17, the second nothing. *)
Definition hippo_seg : Volume :=
  {| shape := (2, 1, 1)%nat;
     voxel := λ x _ _, if (x =? 0)%nat then 17 else 0 |}.

(** Two sagittal slices: the first holds a value the catalog lacks. *)
Definition unknown_seg : Volume :=
  {| shape := (2, 1, 1)%nat;
     voxel := λ x _ _, if (x =? 0)%nat then 5 else 17 |}.

(** One voxel, below zero. *)
Definition negative_seg : Volume :=
  {| shape := (1, 1, 1)%nat; voxel := λ _ _ _, -1 |}.

(** A T1 volume of [n] sagittal slices. *)
Definition sample_mri (n : nat) : Volume :=
  {| shape := (n, 1, 1)%nat; voxel := λ x _ _, 100 + Z.of_nat x |}.

(** *** Sample sessions *)

(** What a run printed, and the volumes it loaded, in order. *)
Definition prints (events : list Event) : list Msg :=
  flat_map (λ e, match e with Print m => [m] | _ => [] end) events.

Definition loads (events : list Event) : list string :=
  flat_map (λ e, match e with NibLoad p => [p] | _ => [] end) events.

(** Two session directories. *)
Definition mr1 : string := "Resources/VCP-002/MR1".

Definition mr2 : string := "Resources/VCP-003/MR1".

(** The T1 volume and the segmentation of a scan of a session. *)
Definition t1_of (d scan : string) : string :=
  d +:+ "/" +:+ scan +:+ "/NIFTI/T1.nii.gz".

Definition slant_of (d scan : string) : string :=
  d +:+ "/" +:+ scan +:+ "/NIFTI/T1_seg.nii.gz".

(** Scan 301 with three volumes, then scan 401 with a T1 and its
    segmentation. *)
Definition two_scans : World :=
  {| fs := {[ t1_of mr1 "401-T1" := Nifti (sample_mri 2);
              slant_of mr1 "401-T1" := Nifti hippo_seg ]};
     listing :=
       {[ mr1 := [ {| entry_name := "301-T1";
                      nifti_names := ["a.nii.gz"; "b.nii.gz"; "c.nii.gz"] |};
                   {| entry_name := "401-T1";
                      nifti_names := ["T1.nii.gz"; "T1_seg.nii.gz"] |} ] ]};
     trace := [] |}.

(** One session whose only scan has a T1 and no segmentation. *)
Definition t1_only : World :=
  {| fs := {[ t1_of mr1 "301-T1" := Nifti (sample_mri 2) ]};
     listing :=
       {[ mr1 := [ {| entry_name := "301-T1";
                      nifti_names := ["T1.nii.gz"] |} ] ]};
     trace := [] |}.

(** A complete session, then one with a T1 and no segmentation. *)
Definition complete_then_t1_only : World :=
  {| fs := {[ t1_of mr1 "301-T1" := Nifti (sample_mri 2);
              slant_of mr1 "301-T1" := Nifti hippo_seg;
              t1_of mr2 "301-T1" := Nifti (sample_mri 2) ]};
     listing :=
       {[ mr1 := [ {| entry_name := "301-T1";
                      nifti_names := ["T1.nii.gz"; "T1_seg.nii.gz"] |} ];
          mr2 := [ {| entry_name := "301-T1";
                      nifti_names := ["T1.nii.gz"] |} ] ]};
     trace := [] |}.

(** A session whose segmentation holds a value the catalog lacks, then a
    complete one. *)
Definition unknown_then_complete : World :=
  {| fs := {[ t1_of mr1 "301-T1" := Nifti (sample_mri 2);
              slant_of mr1 "301-T1" := Nifti unknown_seg;
              t1_of mr2 "301-T1" := Nifti (sample_mri 2);
              slant_of mr2 "301-T1" := Nifti hippo_seg ]};
     listing :=
       {[ mr1 := [ {| entry_name := "301-T1";
                      nifti_names := ["T1.nii.gz"; "T1_seg.nii.gz"] |} ];
          mr2 := [ {| entry_name := "301-T1";
                      nifti_names := ["T1.nii.gz"; "T1_seg.nii.gz"] |} ] ]};
     trace := [] |}.

(** *** The packager *)

(** Where [shutil.copy] puts an image. *)
Definition copy_target (output_dir image_file : string) : string :=
  path_join output_dir (basename image_file).

(** The lines of the sidecar of an image, in a world. *)
Definition sidecar_lines (w : World) (image_file : string) : list string :=
  match fs w !! sidecar image_file with
  | Some (Text lines) => lines
  | _ => []
  end.

(** The record the manifest is to have for an image. *)
Definition record_of (w : World) (image_file : string) : DatasetRecord :=
  {| file_name := basename image_file;
     text := map strip (sidecar_lines w image_file) |}.

(** *** A sample run of the packager *)

(** The double quote. *)
Definition quote : string := String (ascii_of_nat 34) EmptyString.

(** A serialisation in the shape of [json.dumps], for names free of
    characters to escape. *)
Definition sample_dumps (r : DatasetRecord) : string :=
  "{" +:+ quote +:+ "file_name" +:+ quote +:+ ": " +:+ quote
      +:+ file_name r +:+ quote +:+ ", " +:+ quote +:+ "text" +:+ quote
      +:+ ": [" +:+ join ", " (map (λ l, quote +:+ l +:+ quote) (text r))
      +:+ "]}".

Definition blank_image : Image :=
  {| pixels := [[0]]; rot := 1; origin_lower := true |}.

Definition slices_on_disk : World :=
  {| fs :=
       {[ "slice_data/cb2_s_301_axial_000.png"%string := Png blank_image;
          "slice_data/cb2_s_301_axial_000.txt"%string
            := Text ["Left-Hippocampus"; "Right-Hippocampus"]%string;
          "slice_data/cb2_s_301_axial_001.png"%string := Png blank_image;
          "slice_data/cb2_s_301_axial_001.txt"%string
            := Text ["Left-Amygdala"]%string ]};
     listing := ∅;
     trace := [] |}.

Definition sample_images : list string :=
  ["slice_data/cb2_s_301_axial_000.png"; "slice_data/cb2_s_301_axial_001.png"]%string.

End ExtractionSpec.

(* ===================================================================== *)
(** ** Further notions: what a batch removes, what a run reports *)
(* ===================================================================== *)

Module CleanupMore.

Import DeleteAssessors CleanupSpec.

(** The key the batch loop deletes an item by. *)
Definition item_key (s : Assessor) : Selected :=
  key_of (project_id s) (subject_label s) (session_label s) (label s).

(** The record is selected by the key of some item of the batch. *)
Definition listed (l : list Assessor) (a : Assessor) : bool :=
  existsb (λ s, matches (item_key s) a) l.

(** The archive of [w'] has no record that [w] has not, and those of [w]
    it lacks satisfy [P]. *)
Definition removes_only (P : Assessor → Prop) (w w' : World) : Prop :=
  (∀ a, a ∈ assessors w' → a ∈ assessors w) ∧
  (∀ a, a ∈ assessors w → a ∈ assessors w' ∨ P a).

(** Every request to come is answered. *)
Definition quiet (w : World) : Prop :=
  Forall (λ r, r = Answer) (pending w).

(** The projects a run of the script works on. *)
Definition projects_of (args : Args) : list string :=
  if nonempty (arg_projects args) then default [] (arg_projects args)
  else DEFAULT_PROJECTS.

(** An orphan of one of the projects. *)
Definition orphan_in (projects : list string) (a : Assessor) : Prop :=
  project_id a ∈ projects ∧ (subject_orphan a ∨ session_orphan a).

#[export] Instance orphan_in_dec projects a : Decision (orphan_in projects a).
Proof. unfold orphan_in. apply _. Defined.

(** The labels of the verdict lines (deleted or failed) of an output, in
    order, and its progress lines. *)
Definition verdicts (out : list Msg) : list string :=
  flat_map (λ m, match m with
                 | MsgDeleted l | MsgFailed l => [l]
                 | _ => []
                 end) out.

Definition progress (out : list Msg) : list (nat * nat) :=
  flat_map (λ m, match m with
                 | MsgWorking c r => [(c, r)]
                 | _ => []
                 end) out.

End CleanupMore.

(* ===================================================================== *)
(** ** mri_t1_segmentation_overlay.py: the directory and data set helpers *)
(* ===================================================================== *)

Module OverlayTools.

Import Overlay.

(** [os.path.isdir(p)]: a path is a directory when the world lists it. *)
Definition isdir (w : World) (p : string) : bool :=
  bool_decide (is_Some (listing w !! p)).

(** [sorted(l)] on strings: the order of Python's [str], by code. As the
    order is total and antisymmetric the sorted list is unique. *)
Definition sorted (l : list string) : list string :=
  merge_sort String.le l.

(** [[os.path.join(path, d) for d in os.listdir(path)
      if os.path.isdir(os.path.join(path, d))]] *)
Definition subdirs_of (path : string) : M World (list string) :=
  names <~ listdir path ;;
  w <~ get ;;
  ret (List.filter (isdir w) (map (path_join path) names)).

(** The loop of [get_list_of_scan_dirs] over [first_level_dirs], which
    extends [second_level_dirs]. *)
Fixpoint second_level_loop (first_level_dirs second_level_dirs : list string)
  : M World (list string) :=
  match first_level_dirs with
  | [] => ret second_level_dirs
  | first_level_dir :: rest =>
      subdirs <~ subdirs_of first_level_dir ;;
      second_level_loop rest (second_level_dirs ++ subdirs)
  end.

(** [get_list_of_scan_dirs(path)] *)
Definition get_list_of_scan_dirs (path : string) : M World (list string) :=
  first_level_dirs <~ subdirs_of path ;;
  second_level_dirs <~ second_level_loop first_level_dirs [] ;;
  let dirs_to_process := sorted second_level_dirs in
  ret dirs_to_process.

(** [glob.glob(os.path.join(input_dir, "*.png"))]: the files of the
    directory whose name ends in [.png] and has no leading dot, each as
    the directory joined with the name. The order is that of the file
    system, here that of the map. *)
Definition glob_png (input_dir : string) : M World (list string) :=
  w <~ get ;;
  ret (List.filter
         (λ p, String.eqb (path_join input_dir (basename p)) p &&
               negb (hidden (basename p)) && endswith ".png" (basename p))
         (map fst (map_to_list (fs w)))).

(** [get_image_files_for_dataset(input_dir, view)] *)
Definition get_image_files_for_dataset (input_dir view : string)
  : M World (list string) :=
  globbed <~ glob_png input_dir ;;
  let image_files := List.filter (λ img, negb (contains "SEGMENT" img)) globbed in
  let image_files :=
    if String.eqb view "axial" then
      List.filter (λ img, contains "axial" img) image_files
    else if String.eqb view "sagittal" then
      List.filter (λ img, contains "sagittal" img) image_files
    else if String.eqb view "coronal" then
      List.filter (λ img, contains "coronal" img) image_files
    else image_files in
  ret image_files.

(** [len], [enumerate] and [for] on a [str] go over its characters, each
    a string of length one. *)
Definition iter_str (s : string) : list string :=
  map (λ c, String c EmptyString) (list_ascii_of_string s).

(** The line [create_view_dataset] prints. *)
Inductive ViewMsg : Type :=
| MsgCreated (view output_dir : string).

(** A computation on the world, in a state that has the lines printed by
    [create_view_dataset] as well. *)
Definition in_world {A} (m : M World A) : M (World * list ViewMsg) A :=
  λ '(w, out), let '(o, w') := m w in (o, (w', out)).

Section ViewDataset.

Variable json_dumps : DatasetRecord → string.

(** [create_view_dataset(input_dir, output_dir, view, json_file_name)] *)
Definition create_view_dataset (input_dir output_dir view json_file_name : string)
  : M (World * list ViewMsg) unit :=
  image_files <~ in_world (get_image_files_for_dataset input_dir view) ;;
  in_world (create_hf_dataset json_dumps image_files output_dir json_file_name) ;;;
  modify (λ '(w, out), (w, out ++ [MsgCreated view output_dir])).

(** Lines 74 to 81 of [main]: the result directory, and the call of
    [create_hf_dataset], which gets that directory, a [str], where the
    function has [image_files]. *)
Definition SOURCE_PATH : string := "CIBS_BRAIN2/Resources".

Definition OUTPUT_DIR : string := "slice_data".

Definition main_create_hf_dataset : M World unit :=
  let result_dir := path_join SOURCE_PATH OUTPUT_DIR in
  create_hf_dataset json_dumps (iter_str result_dir)
    (path_join result_dir "hf") "brain2_all.jsonl".

End ViewDataset.

End OverlayTools.

Module ExtractionMore.

Import Overlay OverlayTools ExtractionSpec.

(** The directories among the entries of a directory, as paths. *)
Definition children (w : World) (d : string) : list string :=
  List.filter (isdir w) (map (path_join d) (map entry_name (default [] (listing w !! d)))).

(** [x[0].isdigit()] where it does not raise. *)
Definition digit_first (x : string) : bool :=
  match x with
  | String c _ => isdigit c
  | EmptyString => false
  end.

(** The scan identifiers [process_all] finds in the entries of a session
    directory. *)
Definition scan_ids_of (es : list Entry) : list string :=
  map first_token (List.filter digit_first (map entry_name es)).

(** The files that match the last scan identifier of a session
    directory, when it has one. *)
Definition last_scan_files (w : World) (d : string) : option (list string) :=
  match listing w !! d with
  | Some es =>
      match last (scan_ids_of es) with
      | Some id => Some (glob_matches d id es)
      | None => None
      end
  | None => None
  end.

(** A session directory that can be listed, with no empty name, and
    either no scan or a last scan with no or more than two files. *)
Definition skipped (w : World) (d : string) : Prop :=
  ∃ es, listing w !! d = Some es ∧
        Forall (λ e, entry_name e ≠ EmptyString) es ∧
        ∀ files, last_scan_files w d = Some files →
                 length files = 0%nat ∨ (2 < length files)%nat.

(** A session without scans, and one whose scan has three volumes. *)
Definition crowded : World :=
  {| fs := ∅;
     listing :=
       {[ mr2 := [ {| entry_name := "notes.txt"; nifti_names := [] |} ];
          mr1 := [ {| entry_name := "301-T1";
                      nifti_names := ["a.nii.gz"; "b.nii.gz"; "c.nii.gz"] |} ] ]};
     trace := [] |}.

(** The images [get_image_files_for_dataset] selects in a world. *)
Definition selected (input_dir view : string) (w : World) : list string :=
  match get_image_files_for_dataset input_dir view w with
  | (Return l, _) => l
  | _ => []
  end.

(** A directory whose name has a view in it, with a slice of each view
    and a segmentation image. *)
Definition mixed_views : World :=
  {| fs :=
       {[ "runs/axial/cb2_s_301_axial_000.png"%string := Png blank_image;
          "runs/axial/cb2_s_301_coronal_000.png"%string := Png blank_image;
          "runs/axial/cb2_s_301_sagittal_000.png"%string := Png blank_image;
          "runs/axial/cb2_s_301_axial_000_SEGMENT.png"%string := Png blank_image ]};
     listing := ∅;
     trace := [] |}.

(** One slice with its sidecar and its segmentation image. *)
Definition one_slice : World :=
  {| fs :=
       {[ "slice_data/cb2_s_301_axial_000.png"%string := Png blank_image;
          "slice_data/cb2_s_301_axial_000.txt"%string
            := Text ["Left-Hippocampus"]%string;
          "slice_data/cb2_s_301_axial_000_SEGMENT.png"%string := Png blank_image ]};
     listing := ∅;
     trace := [] |}.

(** *** More sample data for the packager *)

(** The first slice with its sidecar, the second without. *)
Definition sidecar_missing : World :=
  {| fs :=
       {[ "slice_data/cb2_s_301_axial_000.png"%string := Png blank_image;
          "slice_data/cb2_s_301_axial_000.txt"%string
            := Text ["Left-Hippocampus"]%string;
          "slice_data/cb2_s_301_axial_001.png"%string := Png blank_image ]};
     listing := ∅;
     trace := [] |}.

(** *** Reading a number back *)

(** The number a string of digits writes. *)
Definition parse_nat (s : string) : option nat :=
  option_map Nat.of_uint (NilEmpty.uint_of_string s).

End ExtractionMore.

(* ===================================================================== *)
(** ** Properties of the assessor clean-up script *)
(* ===================================================================== *)

Lemma bind_Return {St A B} (m : M St A) (f : A → M St B) s a s' :
  m s = (Return a, s') → bind m f s = f a s'.
Proof. unfold bind. by intros ->. Qed.

Lemma bind_Raise {St A B} (m : M St A) (f : A → M St B) s e s' :
  m s = (Raise e, s') → bind m f s = (Raise e, s').
Proof. unfold bind. by intros ->. Qed.

(** Unfolds the monad's operations so that a run computes. *)
Ltac py_unfold :=
  unfold try_except, bind, ret, raise, get, modify, lift in *.

Section AssessorCleanup.

Import DeleteAssessors CleanupSpec.

Ltac xnat_unfold :=
  unfold select_assessor, exists_, delete, list_project_assessors, request,
    print in *; py_unfold; simpl in *.

Lemma request_answered w :
  answered 1 w →
  request w = (Return tt, with_pending (tail (pending w)) w).
Proof.
  unfold answered, request, with_pending. destruct w as [a [|r rs] o]; simpl.
  - done.
  - intros H. apply Forall_cons in H as [-> _]. done.
Qed.

Lemma request_timeout w rs :
  pending w = TimeOut :: rs →
  request w = (Raise ReadTimeout, with_pending rs w).
Proof. unfold request, with_pending. intros ->. done. Qed.

(** The lookup answers that the assessor is absent: [False], and nothing
    changes but the consumed response. *)
Lemma delete_assessor_absent depth proj subj sess assr w :
  answered 1 w →
  present (key_of proj subj sess assr) w = false →
  delete_assessor (S depth) proj subj sess assr w
  = (Return (Some false), with_pending (tail (pending w)) w).
Proof.
  intros Ha Hp. unfold answered in Ha. unfold present, key_of in Hp.
  destruct w as [a pend o]. simpl in *.
  destruct pend as [|r1 rs]; simpl in Ha.
  - cbn; xnat_unfold. rewrite Hp. done.
  - apply Forall_cons in Ha as [-> _]. cbn; xnat_unfold. rewrite Hp. done.
Qed.

(** The lookup answers that the assessor is there and the deletion is
    answered too: it is deleted, and the value is [True]. *)
Lemma delete_assessor_present depth proj subj sess assr w :
  answered 2 w →
  present (key_of proj subj sess assr) w = true →
  delete_assessor (S depth) proj subj sess assr w
  = (Return (Some true),
     {| assessors := List.filter (λ a, negb (matches (key_of proj subj sess assr) a))
                       (assessors w);
        pending := tail (tail (pending w));
        stdout := stdout w |}).
Proof.
  intros Ha Hp. unfold answered in Ha.
  unfold present, key_of in Hp.
  destruct w as [a pend o]. simpl in *.
  destruct pend as [|r1 [|r2 rs]]; simpl in Ha.
  - cbn; xnat_unfold. rewrite Hp. done.
  - apply Forall_cons in Ha as [-> _]. cbn; xnat_unfold. rewrite Hp. done.
  - apply Forall_cons in Ha as [-> Ha]. apply Forall_cons in Ha as [-> _].
    cbn; xnat_unfold. rewrite Hp. done.
Qed.

(** A lookup that times out: the call prints, retries one frame deeper
    and, when the retry returns, drops its value and returns [None]. *)
Lemma delete_assessor_timeout depth proj subj sess assr w rs :
  pending w = TimeOut :: rs →
  delete_assessor (S depth) proj subj sess assr w
  = (print MsgRetry ;;; delete_assessor depth proj subj sess assr ;;; ret None)
      (with_pending rs w).
Proof.
  intros Hp. destruct w as [a pend o]. simpl in Hp. subst pend.
  cbn; xnat_unfold. done.
Qed.

Lemma timeouts_cons r rs :
  timeouts (r :: rs) = ((if bool_decide (r = TimeOut) then 1 else 0) + timeouts rs)%nat.
Proof. unfold timeouts. simpl. destruct (bool_decide (r = TimeOut)); done. Qed.

(** With more frames than time-outs to come the call returns, and all it
    prints is the retry message, once per retry. *)
Lemma delete_assessor_returns depth : ∀ proj subj sess assr w,
  (timeouts (pending w) < depth)%nat →
  ∃ r w' k,
    delete_assessor depth proj subj sess assr w = (Return r, w') ∧
    stdout w' = stdout w ++ replicate k MsgRetry.
Proof.
  induction depth as [|d IH]; intros proj subj sess assr w Hlt; [lia|].
  destruct w as [a pend o]. simpl in Hlt.
  assert (Hretry : ∀ rs a', (timeouts rs < d)%nat →
            ∃ r w' k,
              (print MsgRetry ;;; delete_assessor d proj subj sess assr ;;;
               ret (@None bool))
                {| assessors := a'; pending := rs; stdout := o |} = (Return r, w') ∧
              stdout w' = o ++ replicate k MsgRetry).
  { intros rs a' Hrs.
    destruct (IH proj subj sess assr
                {| assessors := a'; pending := rs; stdout := o ++ [MsgRetry] |} Hrs)
      as (r & w' & k & Hrun & Hout).
    exists None, w', (S k). xnat_unfold. rewrite Hrun. split; [done|].
    rewrite Hout. simpl. by rewrite <- app_assoc. }
  destruct pend as [|[|] rs].
  - destruct (existsb (matches (key_of proj subj sess assr)) a) eqn:Hex;
      eexists _, _, 0%nat; cbn; xnat_unfold; unfold key_of in Hex;
      rewrite Hex; simpl; rewrite app_nil_r; done.
  - destruct (existsb (matches (key_of proj subj sess assr)) a) eqn:Hex;
      unfold key_of in Hex.
    + destruct rs as [|[|] rs'].
      * eexists _, _, 0%nat. cbn; xnat_unfold. rewrite Hex. simpl.
        rewrite app_nil_r. done.
      * eexists _, _, 0%nat. cbn; xnat_unfold. rewrite Hex. simpl.
        rewrite app_nil_r. done.
      * rewrite !timeouts_cons in Hlt. simpl in Hlt.
        destruct (Hretry rs' a ltac:(lia)) as (r & w' & k & Hrun & Hout).
        exists r, w', k. split; [|done].
        rewrite <- Hrun. cbn; xnat_unfold. rewrite Hex. done.
    + eexists _, _, 0%nat. cbn; xnat_unfold. rewrite Hex. simpl.
      rewrite app_nil_r. done.
  - rewrite timeouts_cons in Hlt. simpl in Hlt.
    destruct (Hretry rs a ltac:(lia)) as (r & w' & k & Hrun & Hout).
    exists r, w', k. split; [|done].
    rewrite <- Hrun. cbn; xnat_unfold. done.
Qed.

Lemma present_after_delete k l :
  existsb (matches k) (List.filter (λ a, negb (matches k a)) l) = false.
Proof.
  induction l as [|a l IH]; [done|]. simpl.
  destruct (matches k a) eqn:Hm; simpl; [done|]. by rewrite Hm.
Qed.

Lemma timeouts_answered rs :
  Forall (λ r, r = Answer) rs → timeouts rs = 0%nat.
Proof.
  induction 1 as [|r rs -> _ IH]; [done|]. rewrite timeouts_cons, IH. done.
Qed.

(** One turn of the batch loop. *)
Lemma delete_loop_cons depth count total (s : Assessor) rest :
  delete_loop depth count total (s :: rest)
  = (print (MsgWorking (S count) (total - S count)) ;;;
     r <~ delete_assessor depth (project_id s) (subject_label s)
            (session_label s) (label s) ;;
     (if truthy r then print (MsgDeleted (label s))
      else print (MsgFailed (label s))) ;;;
     delete_loop depth (S count) total rest).
Proof. reflexivity. Qed.

Lemma delete_assessor_timeout_none depth proj subj sess assr w rs :
  pending w = TimeOut :: rs →
  (timeouts rs < depth)%nat →
  ∃ w' n,
    delete_assessor (S depth) proj subj sess assr w = (Return None, w') ∧
    stdout w' = stdout w ++ replicate (S n) MsgRetry ∧
    (Forall (λ r, r = Answer) rs →
     present (key_of proj subj sess assr) w = true →
     present (key_of proj subj sess assr) w' = false).
Proof.
  intros Hp Hlt.
  rewrite (delete_assessor_timeout _ _ _ _ _ _ _ Hp).
  set (wr := {| assessors := assessors w; pending := rs;
                stdout := stdout w ++ [MsgRetry] |}).
  destruct (delete_assessor_returns depth proj subj sess assr wr Hlt)
    as (r & w' & n & Hrun & Hout).
  exists w', n. split; [|split].
  - xnat_unfold. fold wr. rewrite Hrun. done.
  - rewrite Hout. simpl. by rewrite <- app_assoc.
  - intros Hans Hpres. destruct depth as [|d]; [lia|].
    assert (Ha2 : answered 2 wr) by (unfold answered; simpl; by apply Forall_take).
    rewrite (delete_assessor_present d proj subj sess assr wr Ha2 Hpres) in Hrun.
    inversion Hrun. unfold present. simpl. apply present_after_delete.
Qed.

Lemma filter_raising_decide {A} (P : A → Prop) `{∀ a, Decision (P a)}
    (p : A → Outcome bool) (l : list A) :
  Forall (λ a, p a = Return (bool_decide (P a))) l →
  filter_raising p l = Return (filter P l).
Proof.
  induction 1 as [|a l Ha _ IH]; [done|].
  simpl. rewrite Ha, IH. rewrite filter_cons.
  destruct (decide (P a)) as [HP|HP].
  - by rewrite bool_decide_eq_true_2.
  - by rewrite bool_decide_eq_false_2.
Qed.

Lemma mismatch_decide (i : nat) (field : Assessor → string) a :
  (i < length (tokens a))%nat →
  match label_token i a with
  | Return t => Return (negb (String.eqb (field a) t))
  | Raise e => Raise e
  end = Return (bool_decide (tokens a !! i ≠ Some (field a))).
Proof.
  intros Hi. unfold label_token, index. fold (tokens a).
  destruct (lookup_lt_is_Some_2 _ _ Hi) as [t Ht]. rewrite Ht. f_equal.
  destruct (String.eqb_spec (field a) t) as [->|Hne]; simpl.
  - by rewrite bool_decide_eq_false_2; [|intros Hc; apply Hc].
  - rewrite bool_decide_eq_true_2; [done|]. intros [=]. by apply Hne.
Qed.

Lemma occurrences_app a l1 l2 :
  occurrences a (l1 ++ l2) = (occurrences a l1 + occurrences a l2)%nat.
Proof. unfold occurrences. by rewrite filter_app, length_app. Qed.

Lemma occurrences_filter (P : Assessor → Prop) `{∀ a, Decision (P a)} a l :
  occurrences a (filter P l) = if decide (P a) then occurrences a l else 0%nat.
Proof.
  unfold occurrences. induction l as [|b l IH].
  - by destruct (decide (P a)).
  - rewrite (filter_cons P). destruct (decide (P b)) as [Hb|Hb].
    + rewrite !filter_cons. destruct (decide (b = a)) as [->|Hne]; simpl.
      * rewrite IH. destruct (decide (P a)); [done|contradiction].
      * exact IH.
    + rewrite IH. rewrite filter_cons.
      destruct (decide (b = a)) as [->|Hne]; [|done].
      destruct (decide (P a)); [contradiction|done].
Qed.

(** Subject mode only prints: the archive is not touched, whatever it
    holds and however it answers. *)
Lemma main_subject_mode_idle depth args w :
  nonempty (arg_subjects args) = true →
  ∃ m, main depth args w
       = (Return tt, {| assessors := assessors w; pending := pending w;
                        stdout := stdout w ++ [m] |}).
Proof.
  intros Hs. unfold main. rewrite Hs.
  destruct (arg_subjects args) as [[|x l]|]; try discriminate.
  simpl. eexists. xnat_unfold. done.
Qed.

(** A label with fewer tokens than the finder reads stops it. *)
Lemma orphan_candidates_short_label :
  orphan_candidates
    [{| project_id := "CIBS_COPE"; subject_label := "VCP-002";
        session_label := "VCP-002-MR1"; label := "fs_recon" |}]
  = Raise IndexError.
Proof. reflexivity. Qed.

(** C1: run with [--projects CIBS_COPE --subjects VCP-002] on an archive
    that holds an assessor of VCP-002, the script prints its banner and
    returns; the assessor is still there. [delete_all_assessors], which the
    script never calls, would have deleted it. *)
Theorem main_subjects_deletes_nothing :
  main recursion_limit
    {| arg_projects := Some ["CIBS_COPE"%string];
       arg_subjects := Some ["VCP-002"%string] |}
    (archive [])
  = (Return tt,
     {| assessors := [slant_002]; pending := [];
        stdout := [MsgDeletingSubjects ["CIBS_COPE"%string] ["VCP-002"%string]] |})
  ∧ delete_all_assessors recursion_limit "CIBS_COPE" "VCP-002" (archive [])
  = (Return tt,
     {| assessors := []; pending := [];
        stdout := [MsgWorking 1 0; MsgDeleted (label slant_002)] |}).
Proof. split; vm_compute; reflexivity. Qed.

(** C4: the assessor exists and the first lookup times out: the retry
    deletes it, and the call returns [None], not [True]. With an absent
    assessor the call returns [None] too, not [False]. *)
Theorem delete_assessor_retry_drops_result :
  delete_assessor recursion_limit "CIBS_COPE" "VCP-002" "VCP-002-MR1"
    (label slant_002) (archive [TimeOut])
  = (Return None, {| assessors := []; pending := []; stdout := [MsgRetry] |})
  ∧ delete_assessor recursion_limit "CIBS_COPE" "VCP-404" "VCP-404-MR1"
      "CIBS_COPE-x-VCP-404-x-VCP-404-MR1-x-slant_v1" (archive [TimeOut])
  = (Return None,
     {| assessors := [slant_002]; pending := []; stdout := [MsgRetry] |}).
Proof. split; vm_compute; reflexivity. Qed.

(** C5: on assessors whose labels have their three tokens, the
    subject-mismatch subset is the sublist of those whose [subject_label]
    differs from the second token of [label], the session-mismatch subset
    the sublist of those whose [session_label] differs from the third, and
    the candidates are the first followed by the second: an assessor that
    fails both checks is there twice as often as in the input, one that
    fails only the subject check as often as in the input and not in the
    session-mismatch subset. *)
Theorem orphan_finder_subsets (l : list Assessor) :
  Forall well_labelled l →
  subj_delete l = Return (filter subject_orphan l) ∧
  sess_delete l = Return (filter session_orphan l) ∧
  orphan_candidates l
  = Return (filter subject_orphan l ++ filter session_orphan l) ∧
  (∀ a, subject_orphan a → session_orphan a →
        occurrences a (filter subject_orphan l ++ filter session_orphan l)
        = (2 * occurrences a l)%nat) ∧
  (∀ a, subject_orphan a → ¬ session_orphan a →
        occurrences a (filter subject_orphan l) = occurrences a l ∧
        (a ∉ filter session_orphan l) ∧
        occurrences a (filter subject_orphan l ++ filter session_orphan l)
        = occurrences a l).
Proof.
  intros Hwl.
  assert (Hs : subj_delete l = Return (filter subject_orphan l)).
  { apply filter_raising_decide. eapply Forall_impl; [exact Hwl|].
    intros a Ha. unfold well_labelled in Ha.
    apply (mismatch_decide 1 subject_label). lia. }
  assert (He : sess_delete l = Return (filter session_orphan l)).
  { apply filter_raising_decide. eapply Forall_impl; [exact Hwl|].
    intros a Ha. unfold well_labelled in Ha.
    apply (mismatch_decide 2 session_label). lia. }
  split; [exact Hs|]. split; [exact He|]. split.
  { unfold orphan_candidates. by rewrite Hs, He. }
  split.
  - intros a H1 H2. rewrite occurrences_app, !occurrences_filter.
    destruct (decide (subject_orphan a)); [|contradiction].
    destruct (decide (session_orphan a)); [|contradiction]. lia.
  - intros a H1 H2. rewrite occurrences_app, !occurrences_filter.
    destruct (decide (subject_orphan a)); [|contradiction].
    destruct (decide (session_orphan a)); [contradiction|].
    split; [done|]. split; [|lia].
    intros Hin. apply list_elem_of_filter in Hin as [Hin _]. contradiction.
Qed.

Lemma orphan_finder_subsets_witness :
  Forall well_labelled sample_assessors ∧
  orphan_candidates sample_assessors
  = Return ([moved_subject; moved_both] ++ [moved_both]).
Proof.
  assert (H : Forall well_labelled sample_assessors).
  { repeat apply Forall_cons_2; try apply Forall_nil_2; vm_compute; lia. }
  split; [exact H|].
  destruct (orphan_finder_subsets sample_assessors H) as (_ & _ & Hc & _).
  rewrite Hc. vm_compute. reflexivity.
Defined.

(** C6: when the lookup of a call times out, and the frames left exceed
    the time-outs still to come, the call returns [None], whatever the
    retry returned; the batch loop, at whatever item it is, then prints
    the failure line for the item and goes on. This is so also when every
    later request is answered and the assessor was there, in which case
    the retry has deleted it. *)
Theorem delete_assessor_timeout_reports_failure depth (s : Assessor) w rs :
  pending w = TimeOut :: rs →
  (timeouts rs < depth)%nat →
  let k := key_of (project_id s) (subject_label s) (session_label s) (label s) in
  (∃ w1,
     delete_assessor (S depth) (project_id s) (subject_label s)
       (session_label s) (label s) w = (Return None, w1) ∧
     (Forall (λ r, r = Answer) rs → present k w = true → present k w1 = false)) ∧
  (∀ count total rest, ∃ w2 n,
     delete_loop (S depth) count total (s :: rest) w
     = delete_loop (S depth) (S count) total rest w2 ∧
     stdout w2 = stdout w ++ MsgWorking (S count) (total - S count)
                          :: replicate (S n) MsgRetry ++ [MsgFailed (label s)] ∧
     (Forall (λ r, r = Answer) rs → present k w = true → present k w2 = false)).
Proof.
  intros Hp Hlt k. split.
  - destruct (delete_assessor_timeout_none depth (project_id s) (subject_label s)
                (session_label s) (label s) w rs Hp Hlt) as (w1 & n & Hrun & _ & Hgone).
    exists w1. split; [exact Hrun | exact Hgone].
  - intros count total rest.
    set (working := MsgWorking (S count) (total - S count)).
    set (ww := {| assessors := assessors w; pending := pending w;
                  stdout := stdout w ++ [working] |}).
    destruct (delete_assessor_timeout_none depth (project_id s) (subject_label s)
                (session_label s) (label s) ww rs Hp Hlt) as (w1 & n & Hrun & Hout & Hgone).
    exists {| assessors := assessors w1; pending := pending w1;
              stdout := stdout w1 ++ [MsgFailed (label s)] |}, n.
    split; [|split].
    + rewrite delete_loop_cons.
      rewrite (bind_Return (print working) _ w tt ww eq_refl).
      rewrite (bind_Return _ _ ww None w1 Hrun).
      reflexivity.
    + simpl. rewrite Hout. simpl. rewrite <- !app_assoc. done.
    + intros Hans Hpres. apply (Hgone Hans Hpres).
Qed.

Lemma delete_assessor_timeout_reports_failure_witness :
  delete_assessors recursion_limit [slant_002] (archive [TimeOut])
  = (Return tt,
     {| assessors := []; pending := [];
        stdout := [MsgWorking 1 0; MsgRetry; MsgFailed (label slant_002)] |}).
Proof.
  destruct (delete_assessor_timeout_reports_failure 999 slant_002
              (archive [TimeOut]) [] eq_refl ltac:(unfold timeouts; simpl; lia))
    as (_ & Hloop).
  destruct (Hloop 0%nat 1%nat []) as (w2 & n & Hrun & _).
  change (delete_assessors recursion_limit [slant_002] (archive [TimeOut]))
    with (delete_loop (S 999) 0 1 [slant_002] (archive [TimeOut])).
  rewrite Hrun. vm_compute in Hrun. inversion Hrun. reflexivity.
Defined.

End AssessorCleanup.

(* ===================================================================== *)
(** ** Properties of the slice extraction script *)
(* ===================================================================== *)

Section SliceExtraction.

Import Overlay ExtractionSpec.

Ltac fs_unfold :=
  unfold savefig, write_text, readlines, nib_load, shutil_copy, listdir,
    glob_scan, print, emit, store, local in *; py_unfold; simpl in *.

(** *** [np.unique] and the labels of a slice *)

Lemma elem_of_insert_unique x l v :
  v ∈ insert_unique x l ↔ v = x ∨ v ∈ l.
Proof.
  induction l as [|y l IH]; simpl.
  - rewrite list_elem_of_singleton, elem_of_nil. tauto.
  - destruct (Z.ltb_spec x y); [by rewrite elem_of_cons|].
    destruct (Z.eqb_spec x y) as [->|Hne].
    + rewrite elem_of_cons. tauto.
    + rewrite !elem_of_cons, IH. tauto.
Qed.

Lemma insert_unique_sorted x l :
  StronglySorted Z.lt l → StronglySorted Z.lt (insert_unique x l).
Proof.
  induction 1 as [|y l Hs IH Hall]; simpl.
  - repeat constructor.
  - destruct (Z.ltb_spec x y) as [Hlt|Hge].
    + constructor; [by constructor|].
      constructor; [done|]. eapply Forall_impl; [exact Hall|].
      intros z Hz. simpl in Hz. lia.
    + destruct (Z.eqb_spec x y) as [->|Hne]; [by constructor|].
      constructor; [exact IH|].
      apply Forall_forall. intros z Hz.
      apply elem_of_insert_unique in Hz as [->|Hz]; [lia|].
      rewrite Forall_forall in Hall. by apply Hall.
Qed.

Lemma np_unique_sorted a : StronglySorted Z.lt (np_unique a).
Proof.
  unfold np_unique. induction (concat a) as [|x l IH]; simpl.
  - constructor.
  - by apply insert_unique_sorted.
Qed.

Lemma elem_of_np_unique a v : v ∈ np_unique a ↔ v ∈ concat a.
Proof.
  unfold np_unique. induction (concat a) as [|x l IH]; simpl.
  - done.
  - rewrite elem_of_insert_unique, elem_of_cons, IH. done.
Qed.

Lemma elem_of_slice_labels seg_plane v :
  v ∈ slice_labels_of seg_plane ↔ 0 < v ∧ v ∈ concat seg_plane.
Proof.
  unfold slice_labels_of, positive_labels.
  rewrite list_elem_of_In, filter_In, <- list_elem_of_In, elem_of_np_unique.
  rewrite Z.ltb_lt. tauto.
Qed.

Lemma filter_sorted (p : Z → bool) l :
  StronglySorted Z.lt l → StronglySorted Z.lt (List.filter p l).
Proof.
  induction 1 as [|y l Hs IH Hall]; simpl; [constructor|].
  destruct (p y); [|exact IH].
  constructor; [exact IH|].
  apply Forall_forall. intros z Hz.
  apply list_elem_of_In, filter_In in Hz as [Hz _].
  rewrite Forall_forall in Hall. by apply Hall, list_elem_of_In.
Qed.

Lemma slice_labels_sorted seg_plane :
  StronglySorted Z.lt (slice_labels_of seg_plane).
Proof. apply filter_sorted, np_unique_sorted. Qed.

Lemma sorted_NoDup l : StronglySorted Z.lt l → NoDup l.
Proof.
  induction 1 as [|y l Hs IH Hall]; constructor; [|exact IH].
  intros Hin. rewrite Forall_forall in Hall. specialize (Hall _ Hin). lia.
Qed.

(** *** The catalog look-up *)

Lemma lookup_labels_cases (label_dict : gmap Z string) labels :
  (∃ names, lookup_labels label_dict labels = Return names ∧
            Forall2 (λ v name, label_dict !! v = Some name) labels names) ∨
  (∃ v, lookup_labels label_dict labels = Raise (KeyError v) ∧
        v ∈ labels ∧ label_dict !! v = None).
Proof.
  induction labels as [|i labels IH]; simpl.
  - left. exists []. split; [done|constructor].
  - destruct (label_dict !! i) as [name|] eqn:Hi.
    + destruct IH as [(names & -> & Hall)|(v & -> & Hin & Hv)].
      * left. exists (name :: names). split; [done|]. by constructor.
      * right. exists v. split; [done|]. split; [by right|done].
    + right. exists i. split; [done|]. split; [by left|done].
Qed.

Lemma lookup_labels_Return (label_dict : gmap Z string) labels :
  (∀ v, v ∈ labels → is_Some (label_dict !! v)) →
  ∃ names, lookup_labels label_dict labels = Return names ∧
           Forall2 (λ v name, label_dict !! v = Some name) labels names.
Proof.
  intros Hall. destruct (lookup_labels_cases label_dict labels)
    as [Hok|(v & _ & Hin & Hv)]; [exact Hok|].
  destruct (Hall v Hin) as [x Hx]. congruence.
Qed.

Lemma lookup_labels_Raise (label_dict : gmap Z string) labels u :
  u ∈ labels → label_dict !! u = None →
  ∃ v, lookup_labels label_dict labels = Raise (KeyError v) ∧
       v ∈ labels ∧ label_dict !! v = None.
Proof.
  intros Hin Hu. destruct (lookup_labels_cases label_dict labels)
    as [(names & _ & Hall)|Hbad]; [|exact Hbad].
  destruct (proj1 (list_elem_of_lookup _ _) Hin) as [j Hj].
  destruct (Forall2_lookup_l _ _ _ _ _ Hall Hj) as (name & _ & Hname).
  congruence.
Qed.

(** What one turn of the loop does, by the labels of the plane and the
    outcome of the catalog look-up. *)
Lemma save_slice_run mri seg out dict name view vl i w mp sp :
  plane mri view i = Return mp →
  plane seg view i = Return sp →
  save_slice mri seg out dict name true view vl i w
  = match slice_labels_of sp with
    | [] => (Return tt, w)
    | _ :: _ =>
        let w2 := with_images (png_name out name vl i) (segment_name out name vl i)
                    (mri_figure view mp) (seg_figure view sp) w in
        match lookup_labels dict (slice_labels_of sp) with
        | Return names => (Return tt, with_sidecar (txt_name out name vl i) names w2)
        | Raise e => (Raise e, w2)
        end
    end.
Proof.
  intros Hm Hs. unfold save_slice. rewrite Hm, Hs.
  unfold lift at 1. unfold bind at 1. unfold lift at 1. unfold bind at 1.
  fold (slice_labels_of sp).
  destruct (slice_labels_of sp) as [|l0 ls] eqn:Hl; [reflexivity|].
  cbv beta iota zeta delta [length Nat.eqb].
  unfold savefig, emit, store, modify, write_text, bind, lift, ret.
  fold (png_name out name vl i). fold (segment_name out name vl i).
  fold (txt_name out name vl i).
  destruct (lookup_labels dict (l0 :: ls)); reflexivity.
Qed.

Lemma plane_in_range v view i :
  (i < shape_at v view)%nat → ∃ p, plane v view i = Return p.
Proof.
  intros Hi. unfold plane. destruct (shape v) as [[nx ny] nz] eqn:Hsh.
  apply Nat.ltb_lt in Hi. rewrite Hi. eauto.
Qed.

Lemma plane_Return v view i p :
  plane v view i = Return p → (i < shape_at v view)%nat.
Proof.
  unfold plane. destruct (shape v) as [[nx ny] nz] eqn:Hsh.
  destruct (Nat.ltb_spec i (shape_at v view)); [done|discriminate].
Qed.

Lemma for_each_ok_or_unknown {A} dict (l : list A) (body : A → M World unit) :
  (∀ x, x ∈ l → ok_or_unknown dict (body x)) →
  ok_or_unknown dict (for_each l body).
Proof.
  induction l as [|x l IH]; intros Hall w; simpl.
  - left. by exists w.
  - destruct (Hall x ltac:(by left) w) as [(w1 & Hx)|(u & w1 & Hx & Hu)].
    + rewrite (bind_Return _ _ _ _ _ Hx).
      apply IH. intros y Hy. apply Hall. by right.
    + right. exists u, w1. by rewrite (bind_Raise _ _ _ _ _ Hx).
Qed.

Lemma for_each_unknown {A} dict (l : list A) (body : A → M World unit) x :
  x ∈ l →
  (∀ y, y ∈ l → ok_or_unknown dict (body y)) →
  unknown dict (body x) →
  unknown dict (for_each l body).
Proof.
  induction l as [|y l IH]; intros Hin Hall Hbad w; [by apply elem_of_nil in Hin|].
  simpl. destruct (Hall y ltac:(by left) w) as [(w1 & Hy)|(u & w1 & Hy & Hu)].
  - rewrite (bind_Return _ _ _ _ _ Hy).
    apply elem_of_cons in Hin as [->|Hin].
    + destruct (Hbad w) as (u & w2 & Hx & _). congruence.
    + apply IH; [done| |done]. intros z Hz. apply Hall. by right.
  - exists u, w1. by rewrite (bind_Raise _ _ _ _ _ Hy).
Qed.

Lemma save_slice_ok_or_unknown mri seg out dict name view vl i :
  (i < shape_at mri view)%nat → (i < shape_at seg view)%nat →
  ok_or_unknown dict (save_slice mri seg out dict name true view vl i).
Proof.
  intros Hm Hs w.
  destruct (plane_in_range _ _ _ Hm) as [mp Hmp].
  destruct (plane_in_range _ _ _ Hs) as [sp Hsp].
  rewrite (save_slice_run _ _ _ _ _ _ _ _ _ _ _ Hmp Hsp).
  destruct (slice_labels_of sp) as [|l0 ls] eqn:Hl; [left; eauto|].
  destruct (lookup_labels_cases dict (l0 :: ls))
    as [(names & -> & _)|(u & -> & Hin & Hu)]; [left; eauto|].
  right. eexists u, _. split; [done|]. split; [done|].
  rewrite <- Hl in Hin. by apply elem_of_slice_labels in Hin as [? _].
Qed.

Lemma save_slice_unknown mri seg out dict name view vl i sp v :
  (i < shape_at mri view)%nat →
  plane seg view i = Return sp →
  v ∈ concat sp → 0 < v → dict !! v = None →
  unknown dict (save_slice mri seg out dict name true view vl i).
Proof.
  intros Hm Hsp Hv Hpos Hnone w.
  destruct (plane_in_range _ _ _ Hm) as [mp Hmp].
  rewrite (save_slice_run _ _ _ _ _ _ _ _ _ _ _ Hmp Hsp).
  assert (Hin : v ∈ slice_labels_of sp) by (by apply elem_of_slice_labels).
  destruct (lookup_labels_Raise dict _ v Hin Hnone) as (u & Hrun & Hu & Hnu).
  destruct (slice_labels_of sp) as [|l0 ls] eqn:Hl; [by apply elem_of_nil in Hin|].
  rewrite Hrun. eexists u, _. split; [done|]. split; [done|].
  rewrite <- Hl in Hu. by apply elem_of_slice_labels in Hu as [? _].
Qed.

Lemma nib_load_Nifti path v w :
  fs w !! path = Some (Nifti v) →
  nib_load path w
  = (Return v, {| fs := fs w; listing := listing w;
                  trace := trace w ++ [NibLoad path] |}).
Proof. intros H. unfold nib_load. fs_unfold. by rewrite H. Qed.

Lemma shape_at_eq v1 v2 view :
  shape v1 = shape v2 → shape_at v1 view = shape_at v2 view.
Proof. unfold shape_at. by intros ->. Qed.

Lemma for_each_events {A} (l : list A) (body : A → M World unit)
    (ev : A → list Event) :
  (∀ x, x ∈ l → ∀ w, ∃ w', body x w = (Return tt, w') ∧
                           trace w' = trace w ++ ev x) →
  ∀ w, ∃ w', for_each l body w = (Return tt, w') ∧
             trace w' = trace w ++ flat_map ev l.
Proof.
  induction l as [|x l IH]; intros Hall w; simpl.
  - exists w. by rewrite app_nil_r.
  - destruct (Hall x ltac:(by left) w) as (w1 & Hx & Ht1).
    rewrite (bind_Return _ _ _ _ _ Hx).
    destruct (IH ltac:(intros y Hy; apply Hall; by right) w1) as (w2 & Hrun & Ht2).
    exists w2. split; [exact Hrun|]. by rewrite Ht2, Ht1, <- app_assoc.
Qed.

(** With a catalog that has every value above zero of the segmentation,
    the extraction of a scan returns, and its events are the two loads and
    then, view by view and index by index, the events of each slice. *)
Lemma save_t1_events mri_file seg_file out dict subj scan w mri seg :
  fs w !! mri_file = Some (Nifti mri) →
  fs w !! seg_file = Some (Nifti seg) →
  shape mri = shape seg →
  (∀ view i sp v, plane seg view i = Return sp → v ∈ concat sp → 0 < v →
                  is_Some (dict !! v)) →
  ∃ w',
    save_t1_slices_and_labels mri_file seg_file out dict subj scan true w
    = (Return tt, w') ∧
    trace w'
    = trace w ++ [NibLoad mri_file; NibLoad seg_file]
        ++ flat_map
             (λ '(view, vl),
                flat_map
                  (slice_events mri seg out dict ("cb2_" +:+ subj +:+ "_" +:+ scan)
                     view vl)
                  (seq 0 (shape_at mri view)))
             (enumerate view_labels).
Proof.
  intros Hmri Hseg Hshape Hcat.
  unfold save_t1_slices_and_labels.
  rewrite (bind_Return _ _ _ _ _ (nib_load_Nifti _ _ _ Hmri)).
  set (w1 := {| fs := fs w; listing := listing w;
                trace := trace w ++ [NibLoad mri_file] |}).
  rewrite (bind_Return _ _ _ _ _ (nib_load_Nifti seg_file seg w1 Hseg)).
  set (name := ("cb2_" +:+ subj +:+ "_" +:+ scan)%string).
  set (w2 := {| fs := fs w1; listing := listing w1;
                trace := trace w1 ++ [NibLoad seg_file] |}).
  destruct (for_each_events (enumerate view_labels)
              (λ '(view, vl),
                 for_each (seq 0 (shape_at mri view))
                   (λ i, save_slice mri seg out dict name true view vl i))
              (λ '(view, vl),
                 flat_map (slice_events mri seg out dict name view vl)
                   (seq 0 (shape_at mri view)))) with (w := w2)
    as (w' & Hrun & Htrace).
  - intros [view vl] _ w0.
    apply for_each_events. intros i Hi w3.
    apply list_elem_of_In, in_seq in Hi.
    destruct (plane_in_range mri view i ltac:(lia)) as [mp Hmp].
    destruct (plane_in_range seg view i) as [sp Hsp].
    { rewrite <- (shape_at_eq mri seg view Hshape). lia. }
    rewrite (save_slice_run _ _ _ _ _ _ _ _ _ _ _ Hmp Hsp).
    unfold slice_events. rewrite Hmp, Hsp.
    destruct (slice_labels_of sp) as [|l0 ls] eqn:Hl.
    + exists w3. by rewrite app_nil_r.
    + destruct (lookup_labels_Return dict (l0 :: ls)) as (names & -> & _).
      { intros v Hv. rewrite <- Hl in Hv.
        apply elem_of_slice_labels in Hv as [Hpos Hv]. by eapply Hcat. }
      eexists. split; [done|]. simpl. by rewrite <- !app_assoc.
  - exists w'. split; [exact Hrun|]. rewrite Htrace. simpl.
    by rewrite <- !app_assoc.
Qed.

Lemma sample_catalog_parsed :
  create_dict_from_csv catalog_rows = Some sample_catalog.
Proof. reflexivity. Qed.








(** The loop over the scan identifiers keeps what its last turn bound:
    the files of the last identifier are the only ones looked at after. *)
Lemma scan_loop_keeps_last d subj_id sess_id ids : ∀ loc id w,
  ∃ w' loc',
    scan_loop d subj_id sess_id loc (ids ++ [id]) w = (Return loc', w') ∧
    listing w' = listing w ∧
    scan_id loc' = Some id ∧
    matching_files loc'
    = Some (glob_matches d id (default [] (listing w !! d))).
Proof.
  induction ids as [|id0 ids IH]; intros loc id w.
  - eexists _, _. split; [reflexivity|]. simpl. done.
  - simpl.
    set (w1 := {| fs := fs w; listing := listing w;
                  trace := trace w ++ [Print (MsgIds subj_id sess_id id0)] |}).
    destruct (IH {| matching_files :=
                      Some (glob_matches d id0 (default [] (listing w !! d)));
                    scan_id := Some id0;
                    seg_path := seg_path loc; mri_path := mri_path loc |} id w1)
      as (w2 & loc2 & Hrun & Hl & Hid & Hfiles).
    exists w2, loc2. split; [|done].
    rewrite <- Hrun. reflexivity.
Qed.

(** C2: a session with scan 301, for which three files match, and scan
    401, with a T1 and its segmentation. The count is tested once, after
    the loop over the scans, on the files of the last scan: scan 401 is
    extracted, and no warning is printed for scan 301. *)
Theorem process_all_no_warning_for_earlier_scan :
  fst (glob_scan mr1 "301" two_scans)
  = Return [ (mr1 +:+ "/301-T1/NIFTI/a.nii.gz")%string;
             (mr1 +:+ "/301-T1/NIFTI/b.nii.gz")%string;
             (mr1 +:+ "/301-T1/NIFTI/c.nii.gz")%string ] ∧
  ∃ w', process_all [mr1] sample_catalog "slice_data" two_scans = (Return tt, w') ∧
        prints (trace w')
        = [MsgProcessing mr1 1; MsgIds "VCP-002" "MR1" "301";
           MsgIds "VCP-002" "MR1" "401"] ∧
        loads (trace w') = [t1_of mr1 "401-T1"; slant_of mr1 "401-T1"].
Proof.
  split; [reflexivity|].
  eexists. split; [vm_compute; reflexivity|]. split; reflexivity.
Qed.

(** C3: a session whose only scan has a T1 and no segmentation. As the
    first session it ends the run with [UnboundLocalError] for
    [seg_path]; after a complete session its T1 is extracted with the
    segmentation of that earlier session. *)
Theorem process_all_t1_without_segmentation :
  (∃ w', process_all [mr1] sample_catalog "slice_data" t1_only
         = (Raise (UnboundLocalError "seg_path"), w')) ∧
  (∃ w', process_all [mr1; mr2] sample_catalog "slice_data" complete_then_t1_only
         = (Return tt, w') ∧
         loads (trace w')
         = [t1_of mr1 "301-T1"; slant_of mr1 "301-T1";
            t1_of mr2 "301-T1"; slant_of mr1 "301-T1"]).
Proof.
  split.
  - eexists. vm_compute. reflexivity.
  - eexists. split; [vm_compute; reflexivity|]. reflexivity.
Qed.



End SliceExtraction.

(* ===================================================================== *)
(** ** Properties of the data set packager *)
(* ===================================================================== *)

Section DatasetPackager.

Import Overlay ExtractionSpec.

Variable json_dumps : DatasetRecord → string.

Lemma readlines_Text path lines w :
  fs w !! path = Some (Text lines) → readlines path w = (Return lines, w).
Proof. intros H. unfold readlines, bind, get, ret. by rewrite H. Qed.

Lemma shutil_copy_run src out f w :
  fs w !! src = Some f →
  copy_target out src ≠ src →
  shutil_copy src out w
  = (Return tt, {| fs := <[copy_target out src := f]> (fs w);
                   listing := listing w;
                   trace := trace w ++ [CopyFile src (copy_target out src)] |}).
Proof.
  intros Hf Hne. unfold shutil_copy, bind, get. rewrite Hf.
  fold (copy_target out src).
  destruct (String.eqb_spec src (copy_target out src)) as [Heq|_]; [by symmetry in Heq|].
  reflexivity.
Qed.

(** The progress line changes the trace alone. *)
Lemma progress_run (i total : nat) w h :
  ∃ w1,
    (if (i mod 1000 =? 0)%nat
     then on_world (print (MsgFilesRemaining (total - i)))
     else ret tt) (w, h) = (Return tt, (w1, h)) ∧
    fs w1 = fs w ∧ (∀ e, e ∈ trace w → e ∈ trace w1).
Proof.
  destruct (i mod 1000 =? 0)%nat.
  - eexists. split; [reflexivity|]. simpl. split; [done|].
    intros e He. apply elem_of_app. by left.
  - exists w. done.
Qed.

Lemma package_loop_run out total : ∀ l k w h,
  (∀ a, a ∈ l → is_Some (fs w !! a)) →
  (∀ a, a ∈ l → ∃ lines, fs w !! sidecar a = Some (Text lines)) →
  (∀ a, a ∈ l → copy_target out a ≠ a) →
  (∀ a b, a ∈ l → b ∈ l → copy_target out a ≠ sidecar b) →
  ∃ w',
    package_loop json_dumps out total (zip (seq k (length l)) l) (w, h)
    = (Return tt, (w', h ++ map (λ a, json_dumps (record_of w a)) l)) ∧
    (∀ p, is_Some (fs w !! p) → is_Some (fs w' !! p)) ∧
    (∀ e, e ∈ trace w → e ∈ trace w') ∧
    (∀ a, a ∈ l → CopyFile a (copy_target out a) ∈ trace w' ∧
                  is_Some (fs w' !! copy_target out a)).
Proof.
  induction l as [|a l IH]; intros k w h Himg Htxt Hsame Hclob.
  - exists w. simpl. rewrite app_nil_r. split; [done|]. split; [done|].
    split; [done|]. intros a Ha. by apply elem_of_nil in Ha.
  - simpl zip. cbn [package_loop].
    destruct (progress_run k total w h) as (w1 & Hprog & Hfs1 & Htr1).
    rewrite (bind_Return _ _ _ _ _ Hprog).
    destruct (Htxt a ltac:(by left)) as [lines Hlines].
    assert (Hread : on_world (readlines (sidecar a)) (w1, h) = (Return lines, (w1, h))).
    { unfold on_world. rewrite (readlines_Text _ lines); [done|]. by rewrite Hfs1. }
    rewrite (bind_Return _ _ _ _ _ Hread).
    unfold handle_write at 1, modify at 1. unfold bind at 1.
    destruct (Himg a ltac:(by left)) as [f Hf].
    set (w2 := {| fs := <[copy_target out a := f]> (fs w1);
                  listing := listing w1;
                  trace := trace w1 ++ [CopyFile a (copy_target out a)] |}).
    assert (Hcopy : on_world (shutil_copy a out)
                      (w1, h ++ [json_dumps {| file_name := basename a;
                                               text := map strip lines |}])
                    = (Return tt, (w2, h ++ [json_dumps {| file_name := basename a;
                                                           text := map strip lines |}]))).
    { unfold on_world. rewrite (shutil_copy_run a out f w1); [done| |].
      - by rewrite Hfs1.
      - apply Hsame. by left. }
    rewrite (bind_Return _ _ _ _ _ Hcopy).
    assert (Hkeep : ∀ b, b ∈ a :: l → fs w2 !! sidecar b = fs w !! sidecar b).
    { intros b Hb. simpl. rewrite lookup_insert_ne; [by rewrite Hfs1|].
      apply Hclob; [by left|done]. }
    assert (Hmono : ∀ p, is_Some (fs w !! p) → is_Some (fs w2 !! p)).
    { intros p Hp. simpl. apply lookup_insert_is_Some'. right. by rewrite Hfs1. }
    destruct (IH (S k) w2
                (h ++ [json_dumps {| file_name := basename a; text := map strip lines |}]))
      as (w' & Hrun & Hmono' & Htr' & Hcopies).
    + intros b Hb. apply Hmono, Himg. by right.
    + intros b Hb. rewrite Hkeep by (by right). apply Htxt. by right.
    + intros b Hb. apply Hsame. by right.
    + intros b c Hb Hc. apply Hclob; by right.
    + exists w'. split; [|split; [|split]].
      * rewrite Hrun. do 2 f_equal. rewrite <- app_assoc. f_equal. simpl. f_equal.
        -- unfold record_of, sidecar_lines. by rewrite Hlines.
        -- apply map_ext_in. intros b Hb. apply list_elem_of_In in Hb.
           unfold record_of, sidecar_lines. by rewrite Hkeep by (by right).
      * intros p Hp. by apply Hmono', Hmono.
      * intros e He. apply Htr'. simpl. apply elem_of_app. left. by apply Htr1.
      * intros b Hb. apply elem_of_cons in Hb as [->|Hb]; [|by apply Hcopies].
        split.
        -- apply Htr'. simpl. apply elem_of_app. right. by left.
        -- apply Hmono'. simpl. rewrite lookup_insert_eq. by eexists.
Qed.


End DatasetPackager.

Section PackagerSample.

Import Overlay ExtractionSpec.


End PackagerSample.

(* ===================================================================== *)
(** ** Further properties of the assessor clean-up script *)
(* ===================================================================== *)

Section CleanupBatches.

Import DeleteAssessors CleanupSpec CleanupMore.

Ltac xnat_run :=
  unfold select_assessor, exists_, delete, list_project_assessors, request,
    print in *; py_unfold; simpl in *.

Lemma matches_item_key s a : matches (item_key s) a = true ↔ a = s.
Proof.
  unfold matches, item_key, key_of. simpl.
  rewrite !andb_true_iff, !String.eqb_eq. split.
  - intros [[[H1 H2] H3] H4]. destruct a, s. simpl in *. congruence.
  - intros ->. done.
Qed.

Lemma listed_elem_of l a : listed l a = true ↔ a ∈ l.
Proof.
  unfold listed. rewrite existsb_exists. split.
  - intros (s & Hs & Hm). apply matches_item_key in Hm as ->.
    by apply list_elem_of_In.
  - intros Ha. exists a. split; [by apply list_elem_of_In|].
    by apply matches_item_key.
Qed.

Lemma removes_only_refl P w : removes_only P w w.
Proof. split; [done|]. intros a Ha. by left. Qed.

Lemma removes_only_trans P w1 w2 w3 :
  removes_only P w1 w2 → removes_only P w2 w3 → removes_only P w1 w3.
Proof.
  intros [Hs1 Hr1] [Hs2 Hr2]. split.
  - intros a Ha. by apply Hs1, Hs2.
  - intros a Ha. destruct (Hr1 a Ha) as [Ha2|HP]; [|by right]. by apply Hr2.
Qed.

Lemma removes_only_impl (P Q : Assessor → Prop) w w' :
  (∀ a, P a → Q a) → removes_only P w w' → removes_only Q w w'.
Proof.
  intros HPQ [Hs Hr]. split; [exact Hs|].
  intros a Ha. destruct (Hr a Ha) as [?|HP]; [by left|right; by apply HPQ].
Qed.

(** A step that leaves the records alone. *)
Lemma removes_only_same P w w' :
  assessors w' = assessors w → removes_only P w w'.
Proof. intros Heq. split; rewrite Heq; [done|]. intros a Ha. by left. Qed.

Lemma removes_only_filter k w w' :
  assessors w' = List.filter (λ a, negb (matches k a)) (assessors w) →
  removes_only (λ a, matches k a = true) w w'.
Proof.
  intros Heq. split; rewrite Heq.
  - intros a Ha. by apply list_elem_of_In, filter_In in Ha as [Ha _];
      apply list_elem_of_In.
  - intros a Ha. destruct (matches k a) eqn:Hm; [by right|]. left.
    apply list_elem_of_In, filter_In. split; [by apply list_elem_of_In|].
    by rewrite Hm.
Qed.

(** Whatever the archive answers and however deep the call may go,
    [delete_assessor] removes no record but those its key selects. *)
Lemma delete_assessor_removes_only depth : ∀ proj subj sess assr w,
  removes_only (λ a, matches (key_of proj subj sess assr) a = true) w
    (snd (delete_assessor depth proj subj sess assr w)).
Proof.
  induction depth as [|d IH]; intros proj subj sess assr w.
  - apply removes_only_refl.
  - set (k := key_of proj subj sess assr).
    assert (Hretry : ∀ rs,
              removes_only (λ a, matches k a = true) w
                (snd ((print MsgRetry ;;; delete_assessor d proj subj sess assr ;;;
                       ret (@None bool))
                        {| assessors := assessors w; pending := rs;
                           stdout := stdout w |}))).
    { intros rs.
      pose proof (IH proj subj sess assr
                    {| assessors := assessors w; pending := rs;
                       stdout := stdout w ++ [MsgRetry] |}) as Hrec.
      xnat_run.
      destruct (delete_assessor d proj subj sess assr _) as [[r|e] w1]; exact Hrec. }
    destruct w as [a pend o]. simpl in Hretry.
    destruct (existsb (matches k) a) eqn:Hex; unfold k, key_of in Hex.
    + destruct pend as [|[|] [|[|] rs]].
      * cbn; xnat_run. rewrite Hex. simpl. by apply removes_only_filter.
      * cbn; xnat_run. rewrite Hex. simpl. by apply removes_only_filter.
      * cbn; xnat_run. rewrite Hex. simpl. by apply removes_only_filter.
      * specialize (Hretry rs). cbn; xnat_run. rewrite Hex. simpl. exact Hretry.
      * specialize (Hretry []). cbn; xnat_run. exact Hretry.
      * specialize (Hretry (Answer :: rs)). cbn; xnat_run. exact Hretry.
      * specialize (Hretry (TimeOut :: rs)). cbn; xnat_run. exact Hretry.
    + destruct pend as [|[|] rs].
      * cbn; xnat_run. rewrite Hex. simpl. by apply removes_only_same.
      * cbn; xnat_run. rewrite Hex. simpl. by apply removes_only_same.
      * specialize (Hretry rs). cbn; xnat_run. exact Hretry.
Qed.

Lemma snd_bind {St A B} (m : M St A) (f : A → M St B) s :
  snd (bind m f s)
  = match m s with
    | (Return a, s') => snd (f a s')
    | (Raise _, s') => s'
    end.
Proof. unfold bind. by destruct (m s) as [[a|e] s']. Qed.

Lemma print_assessors m w : assessors (snd (print m w)) = assessors w.
Proof. reflexivity. Qed.

Lemma delete_loop_removes_only depth total : ∀ l count w,
  removes_only (λ a, a ∈ l) w (snd (delete_loop depth count total l w)).
Proof.
  induction l as [|s l IH]; intros count w.
  - apply removes_only_refl.
  - rewrite delete_loop_cons. rewrite snd_bind.
    change (print (MsgWorking (S count) (total - S count)) w)
      with (Return tt, {| assessors := assessors w; pending := pending w;
                          stdout := stdout w ++ [MsgWorking (S count) (total - S count)] |}).
    cbv beta iota.
    set (w0 := {| assessors := assessors w; pending := pending w;
                  stdout := stdout w ++ [MsgWorking (S count) (total - S count)] |}).
    rewrite snd_bind.
    pose proof (delete_assessor_removes_only depth (project_id s) (subject_label s)
                  (session_label s) (label s) w0) as Hstep.
    fold (item_key s) in Hstep.
    assert (Hstep' : removes_only (λ a, a ∈ s :: l) w
                       (snd (delete_assessor depth (project_id s) (subject_label s)
                               (session_label s) (label s) w0))).
    { eapply removes_only_impl; [|exact Hstep].
      intros a Ha. apply matches_item_key in Ha as ->. by left. }
    destruct (delete_assessor depth (project_id s) (subject_label s)
                (session_label s) (label s) w0) as [[r|e] w1]; [|exact Hstep'].
    simpl in Hstep'. rewrite snd_bind.
    assert (Hprint : ∀ m, print m w1
              = (Return tt, {| assessors := assessors w1; pending := pending w1;
                               stdout := stdout w1 ++ [m] |})) by done.
    assert (Hrest : ∀ m,
              removes_only (λ a, a ∈ s :: l) w
                (snd (delete_loop depth (S count) total l
                        {| assessors := assessors w1; pending := pending w1;
                           stdout := stdout w1 ++ [m] |}))).
    { intros m. eapply removes_only_trans; [exact Hstep'|].
      eapply removes_only_impl; [|apply (removes_only_trans _ _
          {| assessors := assessors w1; pending := pending w1;
             stdout := stdout w1 ++ [m] |}); [by apply removes_only_same|apply IH]].
      intros a Ha. by right. }
    destruct (truthy r); rewrite Hprint; apply Hrest.
Qed.

(** Whatever the archive answers, a batch removes no record but the
    listed ones, and adds none. *)
Lemma delete_assessors_removes_only depth l w :
  removes_only (λ a, a ∈ l) w (snd (delete_assessors depth l w)).
Proof.
  unfold delete_assessors. destruct (length l =? 0)%nat.
  - by apply removes_only_same.
  - apply delete_loop_removes_only.
Qed.

Lemma filter_raising_Return {A} (p : A → Outcome bool) l r :
  filter_raising p l = Return r →
  ∀ a, a ∈ r → a ∈ l ∧ p a = Return true.
Proof.
  revert r. induction l as [|x l IH]; intros r Hr a Ha; simpl in Hr.
  - inversion Hr; subst. by apply elem_of_nil in Ha.
  - destruct (p x) as [b|e] eqn:Hx; [|discriminate].
    destruct (filter_raising p l) as [r'|e]; [|discriminate].
    inversion Hr; subst. destruct b.
    + apply elem_of_cons in Ha as [->|Ha]; [split; [by left|done]|].
      destruct (IH r' eq_refl a Ha). split; [by right|done].
    + destruct (IH r' eq_refl a Ha). split; [by right|done].
Qed.

Lemma mismatch_orphan (i : nat) (field : Assessor → string) a :
  match label_token i a with
  | Return t => Return (negb (String.eqb (field a) t))
  | Raise e => Raise e
  end = Return true →
  tokens a !! i ≠ Some (field a).
Proof.
  unfold label_token, index. fold (tokens a).
  destruct (tokens a !! i) as [t|]; [|discriminate].
  intros [= Hne] [= ->]. by rewrite String.eqb_refl in Hne.
Qed.

Lemma orphan_candidates_Return l c :
  orphan_candidates l = Return c →
  ∀ a, a ∈ c → a ∈ l ∧ (subject_orphan a ∨ session_orphan a).
Proof.
  unfold orphan_candidates, subj_delete, sess_delete. intros Hc a Ha.
  destruct (filter_raising subject_mismatch l) as [sd|] eqn:Hsd; [|discriminate].
  destruct (filter_raising session_mismatch l) as [ed|] eqn:Hed; [|discriminate].
  inversion Hc; subst. apply elem_of_app in Ha as [Ha|Ha].
  - destruct (filter_raising_Return _ _ _ Hsd a Ha) as [Hin Hm].
    split; [done|]. left. by apply (mismatch_orphan 1 subject_label).
  - destruct (filter_raising_Return _ _ _ Hed a Ha) as [Hin Hm].
    split; [done|]. right. by apply (mismatch_orphan 2 session_label).
Qed.

(** The listing of a project: the value when the archive answers, and the
    records as they were in any case. *)
Lemma list_project_assessors_run proj w :
  assessors (snd (list_project_assessors proj w)) = assessors w ∧
  ∀ l w', list_project_assessors proj w = (Return l, w') →
          l = List.filter (λ a, String.eqb (project_id a) proj) (assessors w).
Proof.
  destruct w as [a [|[|] rs] o]; xnat_run; (split; [done|]);
    intros l w' [= <- <-]; done.
Qed.

Lemma delete_orphaned_removes_only depth : ∀ projects w,
  removes_only (orphan_in projects) w
    (snd (delete_orphaned_assessors depth projects w)).
Proof.
  unfold delete_orphaned_assessors.
  induction projects as [|proj projects IH]; intros w.
  - apply removes_only_refl.
  - cbn [for_each]. rewrite snd_bind.
    set (turn := assessors <~ list_project_assessors proj ;;
                 assessors_to_delete <~ lift (orphan_candidates assessors) ;;
                 delete_assessors depth assessors_to_delete).
    assert (Hturn : removes_only (orphan_in (proj :: projects)) w (snd (turn w))).
    { unfold turn. rewrite snd_bind.
      destruct (list_project_assessors_run proj w) as [Hsame Hlist].
      destruct (list_project_assessors proj w) as [[l|e] w1] eqn:Hrun; simpl in Hsame;
        [|by apply removes_only_same].
      specialize (Hlist l w1 eq_refl). rewrite snd_bind. unfold lift at 1.
      destruct (orphan_candidates l) as [c|e] eqn:Hc; [|by apply removes_only_same].
      eapply (removes_only_trans _ _ w1); [by apply removes_only_same|].
      eapply removes_only_impl; [|apply delete_assessors_removes_only].
      intros a Ha. destruct (orphan_candidates_Return _ _ Hc a Ha) as [Hin Horph].
      split; [|done]. subst l.
      apply list_elem_of_In, filter_In in Hin as [_ Hp].
      apply String.eqb_eq in Hp. rewrite Hp. by left. }
    destruct (turn w) as [[[]|e] w1]; [|exact Hturn].
    simpl in Hturn. eapply removes_only_trans; [exact Hturn|].
    eapply removes_only_impl; [|apply IH].
    intros a [Hp Ho]. split; [by right|done].
Qed.

(** X1: whatever the command line, the archive's answers and the depth the
    interpreter allows, a run of the script adds no record and removes none
    but orphans of the projects it works on: an assessor whose subject and
    session agree with its label is still there after the run. *)
Theorem main_removes_only_orphans depth args w :
  removes_only (orphan_in (projects_of args)) w (snd (main depth args w)).
Proof.
  unfold main. fold (projects_of args).
  destruct (nonempty (if nonempty (arg_subjects args) then arg_subjects args
                      else None)).
  - by apply removes_only_same.
  - rewrite snd_bind.
    change (print (MsgDeletingOrphans (projects_of args)) w)
      with (Return tt, {| assessors := assessors w; pending := pending w;
                          stdout := stdout w ++ [MsgDeletingOrphans (projects_of args)] |}).
    cbv beta iota.
    eapply removes_only_trans; [|apply delete_orphaned_removes_only].
    by apply removes_only_same.
Qed.

(** *** An archive that answers *)

Lemma quiet_answered n w : quiet w → answered n w.
Proof. unfold quiet, answered. apply Forall_take. Qed.

Lemma quiet_tail w : quiet w → quiet (with_pending (tail (pending w)) w).
Proof.
  unfold quiet. simpl. destruct (pending w); [done|].
  intros H. by apply Forall_cons in H as [_ H].
Qed.

Lemma filter_none_matching {A} (p : A → bool) l :
  existsb p l = false → List.filter (λ a, negb (p a)) l = l.
Proof.
  induction l as [|x l IH]; [done|]. simpl.
  intros [Hx Hl]%orb_false_iff. rewrite Hx. simpl. by rewrite IH.
Qed.

Lemma filter_twice {A} (f g : A → bool) l :
  List.filter f (List.filter g l) = List.filter (λ a, g a && f a) l.
Proof.
  induction l as [|x l IH]; [done|]. simpl.
  destruct (g x); simpl; [destruct (f x)|]; by rewrite IH.
Qed.

(** With an archive that answers, the call tells whether the assessor was
    there, and leaves the records its key does not select. *)
Lemma delete_assessor_quiet depth proj subj sess assr w :
  quiet w →
  ∃ w',
    delete_assessor (S depth) proj subj sess assr w
    = (Return (Some (present (key_of proj subj sess assr) w)), w') ∧
    assessors w'
    = List.filter (λ a, negb (matches (key_of proj subj sess assr) a)) (assessors w) ∧
    stdout w' = stdout w ∧ quiet w'.
Proof.
  intros Hq. destruct (present (key_of proj subj sess assr) w) eqn:Hp.
  - eexists. split; [apply delete_assessor_present; [by apply quiet_answered|done]|].
    simpl. split; [done|]. split; [done|].
    apply quiet_tail in Hq. by apply quiet_tail in Hq.
  - eexists. split; [apply delete_assessor_absent; [by apply quiet_answered|done]|].
    simpl. split; [|split; [done|by apply quiet_tail]].
    symmetry. by apply filter_none_matching.
Qed.

Lemma delete_loop_quiet depth total : ∀ l count w,
  quiet w →
  ∃ w',
    delete_loop (S depth) count total l w = (Return tt, w') ∧
    assessors w' = List.filter (λ a, negb (listed l a)) (assessors w) ∧
    quiet w'.
Proof.
  induction l as [|s l IH]; intros count w Hq.
  - exists w. split; [done|]. split; [|done].
    unfold listed. simpl. induction (assessors w) as [|x xs IHx]; [done|].
    simpl. by rewrite <- IHx.
  - rewrite delete_loop_cons.
    set (w0 := {| assessors := assessors w; pending := pending w;
                  stdout := stdout w ++ [MsgWorking (S count) (total - S count)] |}).
    rewrite (bind_Return (print (MsgWorking (S count) (total - S count))) _ w tt w0 eq_refl).
    destruct (delete_assessor_quiet depth (project_id s) (subject_label s)
                (session_label s) (label s) w0 Hq) as (w1 & Hrun & Ha1 & _ & Hq1).
    rewrite (bind_Return _ _ _ _ _ Hrun).
    assert (Hprint : ∀ m, ∃ w2, print m w1 = (Return tt, w2) ∧
                                assessors w2 = assessors w1 ∧ quiet w2).
    { intros m. eexists. split; [reflexivity|]. done. }
    destruct (Hprint (if truthy (Some (present (key_of (project_id s) (subject_label s)
                                                   (session_label s) (label s)) w0))
                      then MsgDeleted (label s) else MsgFailed (label s)))
      as (w2 & Hp2 & Ha2 & Hq2).
    assert (Hp2' : (if truthy (Some (present (key_of (project_id s) (subject_label s)
                                                 (session_label s) (label s)) w0))
                    then print (MsgDeleted (label s)) else print (MsgFailed (label s))) w1
                   = (Return tt, w2)).
    { destruct (truthy _); exact Hp2. }
    rewrite (bind_Return _ _ _ _ _ Hp2').
    destruct (IH (S count) w2 Hq2) as (w3 & Hrun3 & Ha3 & Hq3).
    exists w3. split; [exact Hrun3|]. split; [|exact Hq3].
    rewrite Ha3, Ha2, Ha1. simpl. rewrite filter_twice.
    apply filter_ext. intros a. unfold listed. simpl.
    fold (item_key s). by rewrite negb_orb.
Qed.

Lemma delete_assessors_quiet depth l w :
  quiet w →
  ∃ w',
    delete_assessors (S depth) l w = (Return tt, w') ∧
    assessors w' = List.filter (λ a, negb (listed l a)) (assessors w) ∧
    quiet w'.
Proof.
  intros Hq. unfold delete_assessors. destruct l as [|s l].
  - eexists. split; [reflexivity|]. simpl. split; [|done].
    induction (assessors w) as [|x xs IHx]; [done|]. simpl. by rewrite <- IHx.
  - apply delete_loop_quiet, Hq.
Qed.

Lemma list_project_assessors_quiet proj w :
  quiet w →
  ∃ w',
    list_project_assessors proj w
    = (Return (List.filter (λ a, String.eqb (project_id a) proj) (assessors w)), w') ∧
    assessors w' = assessors w ∧ stdout w' = stdout w ∧ quiet w'.
Proof.
  intros Hq. destruct w as [a [|r rs] o]; unfold quiet in Hq; simpl in Hq.
  - eexists. split; [reflexivity|]. done.
  - apply Forall_cons in Hq as [-> Hq]. eexists. split; [reflexivity|]. done.
Qed.

(** X2: with an archive that answers, [delete_all_assessors] returns and
    leaves in the archive the records that are not of the project and
    subject given, all of them and in their order: the assessors of the
    subject in the project are gone, nothing else is. *)
Theorem delete_all_assessors_clears_subject depth proj subject w :
  quiet w →
  ∃ w',
    delete_all_assessors (S depth) proj subject w = (Return tt, w') ∧
    assessors w'
    = List.filter (λ a, negb (String.eqb (project_id a) proj &&
                              String.eqb (subject_label a) subject))
        (assessors w).
Proof.
  intros Hq. unfold delete_all_assessors.
  destruct (list_project_assessors_quiet proj w Hq) as (w1 & Hlist & Ha1 & _ & Hq1).
  rewrite (bind_Return _ _ _ _ _ Hlist).
  destruct (delete_assessors_quiet depth
              (List.filter (λ a, String.eqb (subject_label a) subject)
                 (List.filter (λ a, String.eqb (project_id a) proj) (assessors w)))
              w1 Hq1) as (w2 & Hrun & Ha2 & _).
  exists w2. split; [exact Hrun|]. rewrite Ha2, Ha1.
  apply filter_ext_in. intros a Ha. f_equal.
  apply eq_true_iff_eq. rewrite listed_elem_of, andb_true_iff.
  rewrite list_elem_of_In, !filter_In. cbv beta. tauto.
Qed.

Lemma delete_all_assessors_clears_subject_witness :
  ∃ w', delete_all_assessors recursion_limit "CIBS_COPE" "VCP-009"
          {| assessors := sample_assessors; pending := [Answer; Answer];
             stdout := [] |} = (Return tt, w') ∧
        assessors w' = [slant_002; moved_both].
Proof.
  destruct (delete_all_assessors_clears_subject 999 "CIBS_COPE" "VCP-009"
              {| assessors := sample_assessors; pending := [Answer; Answer];
                 stdout := [] |})
    as (w' & Hrun & Ha).
  - unfold quiet. simpl. by repeat constructor.
  - exists w'. split; [exact Hrun|]. rewrite Ha. reflexivity.
Defined.

Lemma orphan_candidates_well_labelled l :
  Forall well_labelled l →
  orphan_candidates l
  = Return (filter subject_orphan l ++ filter session_orphan l).
Proof.
  intros Hwl. unfold orphan_candidates, subj_delete, sess_delete.
  rewrite (filter_raising_decide subject_orphan subject_mismatch l).
  2:{ eapply Forall_impl; [exact Hwl|]. intros a Ha. unfold well_labelled in Ha.
      apply (mismatch_decide 1 subject_label). lia. }
  rewrite (filter_raising_decide session_orphan session_mismatch l).
  2:{ eapply Forall_impl; [exact Hwl|]. intros a Ha. unfold well_labelled in Ha.
      apply (mismatch_decide 2 session_label). lia. }
  done.
Qed.

Lemma Forall_List_filter {A} (P : A → Prop) (f : A → bool) l :
  Forall P l → Forall P (List.filter f l).
Proof.
  rewrite !Forall_forall. intros H a Ha.
  apply list_elem_of_In, filter_In in Ha as [Ha _]. by apply H, list_elem_of_In.
Qed.

Lemma orphan_turn_quiet depth proj w :
  quiet w → Forall well_labelled (assessors w) →
  ∃ w',
    (assessors <~ list_project_assessors proj ;;
     assessors_to_delete <~ lift (orphan_candidates assessors) ;;
     delete_assessors (S depth) assessors_to_delete) w = (Return tt, w') ∧
    assessors w'
    = List.filter (λ a, negb (bool_decide (orphan_in [proj] a))) (assessors w) ∧
    quiet w'.
Proof.
  intros Hq Hwl.
  destruct (list_project_assessors_quiet proj w Hq) as (w1 & Hlist & Ha1 & _ & Hq1).
  rewrite (bind_Return _ _ _ _ _ Hlist).
  set (l := List.filter (λ a, String.eqb (project_id a) proj) (assessors w)).
  assert (Hc : orphan_candidates l
               = Return (filter subject_orphan l ++ filter session_orphan l)).
  { apply orphan_candidates_well_labelled. by apply Forall_List_filter. }
  unfold lift at 1. unfold bind at 1. rewrite Hc.
  destruct (delete_assessors_quiet depth
              (filter subject_orphan l ++ filter session_orphan l) w1 Hq1)
    as (w2 & Hrun & Ha2 & Hq2).
  exists w2. split; [exact Hrun|]. split; [|exact Hq2].
  rewrite Ha2, Ha1. apply filter_ext_in. intros a Ha. f_equal.
  apply eq_true_iff_eq. rewrite listed_elem_of, bool_decide_eq_true.
  rewrite elem_of_app, !list_elem_of_filter. unfold l, orphan_in.
  rewrite list_elem_of_In, filter_In, String.eqb_eq, list_elem_of_singleton.
  tauto.
Qed.

(** X3: with an archive that answers and records whose labels have their
    three tokens, [delete_orphaned_assessors] returns and leaves in the
    archive the records that are not orphans of the projects given, all
    of them and in their order. *)
Theorem delete_orphaned_assessors_clears_orphans depth : ∀ projects w,
  quiet w → Forall well_labelled (assessors w) →
  ∃ w',
    delete_orphaned_assessors (S depth) projects w = (Return tt, w') ∧
    assessors w'
    = List.filter (λ a, negb (bool_decide (orphan_in projects a))) (assessors w).
Proof.
  unfold delete_orphaned_assessors.
  induction projects as [|proj projects IH]; intros w Hq Hwl.
  - exists w. split; [done|]. symmetry. clear Hwl.
    induction (assessors w) as [|x xs IHx]; [done|]. cbn [List.filter].
    destruct (bool_decide (orphan_in [] x)) eqn:Hb.
    + apply bool_decide_eq_true in Hb as [Hin _]. by apply elem_of_nil in Hin.
    + cbn [negb]. f_equal. exact IHx.
  - cbn [for_each].
    destruct (orphan_turn_quiet depth proj w Hq Hwl) as (w1 & Hturn & Ha1 & Hq1).
    rewrite (bind_Return _ _ _ _ _ Hturn).
    destruct (IH w1 Hq1) as (w2 & Hrun & Ha2).
    { rewrite Ha1. by apply Forall_List_filter. }
    exists w2. split; [exact Hrun|]. rewrite Ha2, Ha1, filter_twice.
    apply filter_ext. intros a. rewrite <- negb_orb. f_equal.
    apply eq_true_iff_eq. rewrite orb_true_iff, !bool_decide_eq_true.
    unfold orphan_in. rewrite list_elem_of_singleton, elem_of_cons. tauto.
Qed.

Lemma delete_orphaned_assessors_clears_orphans_witness :
  ∃ w', delete_orphaned_assessors recursion_limit ["CIBS_COPE"%string]
          {| assessors := sample_assessors; pending := []; stdout := [] |}
        = (Return tt, w') ∧
        assessors w' = [slant_002].
Proof.
  destruct (delete_orphaned_assessors_clears_orphans 999 ["CIBS_COPE"%string]
              {| assessors := sample_assessors; pending := []; stdout := [] |})
    as (w' & Hrun & Ha).
  - unfold quiet. simpl. constructor.
  - repeat apply Forall_cons_2; try apply Forall_nil_2; vm_compute; lia.
  - exists w'. split; [exact Hrun|]. rewrite Ha. vm_compute. reflexivity.
Defined.

(** *** What a batch reports *)

Lemma verdicts_app out1 out2 : verdicts (out1 ++ out2) = verdicts out1 ++ verdicts out2.
Proof. unfold verdicts. apply flat_map_app. Qed.

Lemma progress_app out1 out2 : progress (out1 ++ out2) = progress out1 ++ progress out2.
Proof. unfold progress. apply flat_map_app. Qed.

Lemma verdicts_retries k : verdicts (replicate k MsgRetry) = [].
Proof. induction k; [done|]. simpl. exact IHk. Qed.

Lemma progress_retries k : progress (replicate k MsgRetry) = [].
Proof. induction k; [done|]. simpl. exact IHk. Qed.

(** With more frames than time-outs to come the call returns, prints but
    retry lines, and leaves no more time-outs to come than there were. *)
Lemma delete_assessor_returns_fewer depth : ∀ proj subj sess assr w,
  (timeouts (pending w) < depth)%nat →
  ∃ r w' k,
    delete_assessor depth proj subj sess assr w = (Return r, w') ∧
    stdout w' = stdout w ++ replicate k MsgRetry ∧
    (timeouts (pending w') ≤ timeouts (pending w))%nat.
Proof.
  induction depth as [|d IH]; intros proj subj sess assr w Hlt; [lia|].
  destruct w as [a pend o]. simpl in Hlt.
  assert (Hretry : ∀ rs, (timeouts rs < d)%nat →
            ∃ r w' k,
              (print MsgRetry ;;; delete_assessor d proj subj sess assr ;;;
               ret (@None bool))
                {| assessors := a; pending := rs; stdout := o |} = (Return r, w') ∧
              stdout w' = o ++ replicate k MsgRetry ∧
              (timeouts (pending w') ≤ timeouts rs)%nat).
  { intros rs Hrs.
    destruct (IH proj subj sess assr
                {| assessors := a; pending := rs; stdout := o ++ [MsgRetry] |} Hrs)
      as (r & w' & k & Hrun & Hout & Hle).
    exists None, w', (S k). xnat_run. rewrite Hrun. split; [done|].
    split; [|done]. rewrite Hout. simpl. by rewrite <- app_assoc. }
  destruct pend as [|[|] rs].
  - destruct (existsb (matches (key_of proj subj sess assr)) a) eqn:Hex;
      eexists _, _, 0%nat; cbn; xnat_run; unfold key_of in Hex;
      rewrite Hex; simpl; rewrite app_nil_r; done.
  - destruct (existsb (matches (key_of proj subj sess assr)) a) eqn:Hex;
      unfold key_of in Hex.
    + destruct rs as [|[|] rs'].
      * eexists _, _, 0%nat. cbn; xnat_run. rewrite Hex. simpl.
        rewrite app_nil_r. done.
      * eexists _, _, 0%nat. cbn; xnat_run. rewrite Hex. simpl.
        rewrite app_nil_r. split; [done|]. split; [done|].
        unfold timeouts; simpl; lia.
      * rewrite !timeouts_cons in Hlt. simpl in Hlt.
        destruct (Hretry rs' ltac:(lia)) as (r & w' & k & Hrun & Hout & Hle).
        exists r, w', k. split; [|split; [done|]].
        -- rewrite <- Hrun. cbn; xnat_run. rewrite Hex. done.
        -- unfold timeouts in *; simpl in *; lia.
    + eexists _, _, 0%nat. cbn; xnat_run. rewrite Hex. simpl.
      rewrite app_nil_r. split; [done|]. split; [done|].
      unfold timeouts; simpl; lia.
  - rewrite timeouts_cons in Hlt. simpl in Hlt.
    destruct (Hretry rs ltac:(lia)) as (r & w' & k & Hrun & Hout & Hle).
    exists r, w', k. split; [|split; [done|]].
    + rewrite <- Hrun. cbn; xnat_run. done.
    + unfold timeouts in *; simpl in *; lia.
Qed.

Lemma delete_loop_reports depth total : ∀ l count w,
  (timeouts (pending w) < depth)%nat →
  ∃ w' out,
    delete_loop depth count total l w = (Return tt, w') ∧
    stdout w' = stdout w ++ out ∧
    verdicts out = map label l ∧
    progress out = map (λ k, (k, total - k)%nat) (seq (S count) (length l)).
Proof.
  induction l as [|s l IH]; intros count w Hlt.
  - exists w, []. split; [done|]. by rewrite app_nil_r.
  - rewrite delete_loop_cons.
    set (working := MsgWorking (S count) (total - S count)).
    set (w0 := {| assessors := assessors w; pending := pending w;
                  stdout := stdout w ++ [working] |}).
    rewrite (bind_Return (print working) _ w tt w0 eq_refl).
    destruct (delete_assessor_returns_fewer depth (project_id s) (subject_label s)
                (session_label s) (label s) w0 Hlt)
      as (r & w1 & k & Hrun & Hout1 & Hle).
    rewrite (bind_Return _ _ _ _ _ Hrun).
    set (verdict := if truthy r then MsgDeleted (label s) else MsgFailed (label s)).
    set (w2 := {| assessors := assessors w1; pending := pending w1;
                  stdout := stdout w1 ++ [verdict] |}).
    assert (Hp : (if truthy r then print (MsgDeleted (label s))
                  else print (MsgFailed (label s))) w1 = (Return tt, w2)).
    { unfold w2, verdict. by destruct (truthy r). }
    rewrite (bind_Return _ _ _ _ _ Hp).
    destruct (IH (S count) w2) as (w3 & out & Hrun3 & Hout3 & Hv & Hpr).
    { simpl in *. lia. }
    exists w3, (working :: replicate k MsgRetry ++ verdict :: out).
    split; [exact Hrun3|]. split; [|split].
    + rewrite Hout3. simpl. rewrite Hout1. simpl. by rewrite <- !app_assoc.

    + change (working :: replicate k MsgRetry ++ verdict :: out)
        with ([working] ++ replicate k MsgRetry ++ [verdict] ++ out).
      rewrite !verdicts_app, verdicts_retries, Hv.
      unfold verdict. by destruct (truthy r).
    + change (working :: replicate k MsgRetry ++ verdict :: out)
        with ([working] ++ replicate k MsgRetry ++ [verdict] ++ out).
      rewrite !progress_app, progress_retries, Hpr.
      unfold verdict. by destruct (truthy r).
Qed.

(** X4: with more frames than time-outs to come a batch returns; its
    output has one verdict line, deleted or failed, per item, in the order
    of the items, and one progress line per item, counting up from 1 with
    the number of items still to do. *)
Theorem delete_assessors_reports_each_item depth l w :
  (timeouts (pending w) < depth)%nat →
  ∃ w' out,
    delete_assessors depth l w = (Return tt, w') ∧
    stdout w' = stdout w ++ out ∧
    verdicts out = map label l ∧
    progress out = map (λ k, (k, length l - k)%nat) (seq 1 (length l)).
Proof.
  intros Hlt. unfold delete_assessors. destruct l as [|s l].
  - eexists _, [MsgNoAssessors]. split; [reflexivity|]. done.
  - apply delete_loop_reports, Hlt.
Qed.

Lemma delete_assessors_reports_each_item_witness :
  ∃ w' out,
    delete_assessors recursion_limit (sample_assessors ++ [moved_both])
      {| assessors := sample_assessors; pending := [Answer; TimeOut]; stdout := [] |}
    = (Return tt, w') ∧
    stdout w' = out ∧
    verdicts out = map label (sample_assessors ++ [moved_both]) ∧
    progress out = [(1, 3); (2, 2); (3, 1); (4, 0)]%nat.
Proof.
  destruct (delete_assessors_reports_each_item recursion_limit
              (sample_assessors ++ [moved_both])
              {| assessors := sample_assessors; pending := [Answer; TimeOut];
                 stdout := [] |})
    as (w' & out & Hrun & Hout & Hv & Hp).
  - unfold timeouts, recursion_limit. simpl. lia.
  - exists w', out. split; [exact Hrun|]. split; [exact Hout|].
    split; [exact Hv|exact Hp].
Defined.

End CleanupBatches.

(* ===================================================================== *)
(** ** Further properties of the data set packager *)
(* ===================================================================== *)

Section PackagerErrors.

Import Overlay ExtractionSpec.

Variable json_dumps : DatasetRecord → string.

(** The loop over a good prefix of the images: their records are written
    and their copies made, and the loop goes on with the rest; no file is
    touched but the copies' targets. *)
Lemma package_loop_prefix out total : ∀ pre rest k w h,
  (∀ a, a ∈ pre → is_Some (fs w !! a)) →
  (∀ a, a ∈ pre → ∃ lines, fs w !! sidecar a = Some (Text lines)) →
  (∀ a, a ∈ pre → copy_target out a ≠ a) →
  (∀ a b, a ∈ pre → b ∈ pre → copy_target out a ≠ sidecar b) →
  ∃ w',
    package_loop json_dumps out total
      (zip (seq k (length (pre ++ rest))) (pre ++ rest)) (w, h)
    = package_loop json_dumps out total
        (zip (seq (k + length pre) (length rest)) rest)
        (w', h ++ map (λ a, json_dumps (record_of w a)) pre) ∧
    (∀ q, (∀ a, a ∈ pre → copy_target out a ≠ q) → fs w' !! q = fs w !! q) ∧
    (∀ p, is_Some (fs w !! p) → is_Some (fs w' !! p)) ∧
    (∀ e, e ∈ trace w → e ∈ trace w').
Proof.
  induction pre as [|a pre IH]; intros rest k w h Himg Htxt Hsame Hclob.
  - exists w. simpl. rewrite app_nil_r, Nat.add_0_r. done.
  - rewrite <- app_comm_cons. cbn [length seq]. simpl zip. cbn [package_loop].
    destruct (progress_run k total w h) as (w1 & Hprog & Hfs1 & Htr1).
    rewrite (bind_Return _ _ _ _ _ Hprog).
    destruct (Htxt a ltac:(by left)) as [lines Hlines].
    assert (Hread : on_world (readlines (sidecar a)) (w1, h) = (Return lines, (w1, h))).
    { unfold on_world. rewrite (readlines_Text _ lines); [done|]. by rewrite Hfs1. }
    rewrite (bind_Return _ _ _ _ _ Hread).
    unfold handle_write at 1, modify at 1. unfold bind at 1.
    destruct (Himg a ltac:(by left)) as [f Hf].
    set (line := json_dumps {| file_name := basename a; text := map strip lines |}).
    set (w2 := {| fs := <[copy_target out a := f]> (fs w1);
                  listing := listing w1;
                  trace := trace w1 ++ [CopyFile a (copy_target out a)] |}).
    assert (Hcopy : on_world (shutil_copy a out) (w1, h ++ [line])
                    = (Return tt, (w2, h ++ [line]))).
    { unfold on_world. rewrite (shutil_copy_run a out f w1); [done| |].
      - by rewrite Hfs1.
      - apply Hsame. by left. }
    rewrite (bind_Return _ _ _ _ _ Hcopy).
    assert (Hkeep : ∀ q, copy_target out a ≠ q → fs w2 !! q = fs w !! q).
    { intros q Hq. simpl. rewrite lookup_insert_ne; [by rewrite Hfs1|done]. }
    assert (Hmono : ∀ p, is_Some (fs w !! p) → is_Some (fs w2 !! p)).
    { intros p Hp. simpl. apply lookup_insert_is_Some'. right. by rewrite Hfs1. }
    destruct (IH rest (S k) w2 (h ++ [line])) as (w' & Hrun & Hframe & Hmono' & Htr').
    + intros b Hb. apply Hmono, Himg. by right.
    + intros b Hb. rewrite Hkeep; [apply Htxt; by right|].
      apply Hclob; [by left|by right].
    + intros b Hb. apply Hsame. by right.
    + intros b c Hb Hc. apply Hclob; by right.
    + exists w'. split; [|split; [|split]].
      * rewrite Hrun. replace (k + S (length pre))%nat with (S k + length pre)%nat by lia.
        do 2 f_equal. rewrite <- app_assoc. f_equal. simpl. f_equal.
        -- unfold line, record_of, sidecar_lines. by rewrite Hlines.
        -- apply map_ext_in. intros b Hb. apply list_elem_of_In in Hb.
           unfold record_of, sidecar_lines. rewrite Hkeep; [done|].
           apply Hclob; [by left|by right].
      * intros q Hq. rewrite Hframe; [apply Hkeep, Hq; by left|].
        intros b Hb. apply Hq. by right.
      * intros p Hp. by apply Hmono', Hmono.
      * intros e He. apply Htr'. simpl. apply elem_of_app. left. by apply Htr1.
Qed.

Lemma readlines_missing path w :
  fs w !! path = None → readlines path w = (Raise (FileNotFoundError path), w).
Proof. intros H. unfold readlines, bind, get, raise. by rewrite H. Qed.

Lemma shutil_copy_same src out f w :
  fs w !! src = Some f →
  copy_target out src = src →
  shutil_copy src out w = (Raise (SameFileError src), w).
Proof.
  intros Hf Heq. unfold shutil_copy, bind, get. rewrite Hf.
  fold (copy_target out src). rewrite Heq, String.eqb_refl. reflexivity.
Qed.

(** The run of [create_hf_dataset] from the run of its loop. *)
Lemma create_hf_dataset_from_loop image_files out name w o w1 h :
  package_loop json_dumps out (length image_files) (enumerate image_files)
    ({| fs := <[path_join out name := Text []]> (fs w); listing := listing w;
        trace := trace w |}, []) = (o, (w1, h)) →
  create_hf_dataset json_dumps image_files out name w
  = (o, {| fs := <[path_join out name := Text h]> (fs w1); listing := listing w1;
           trace := trace w1 |}).
Proof.
  intros Hloop. unfold create_hf_dataset.
  change (store (path_join out name) (Text []) w)
    with (Return tt, {| fs := <[path_join out name := Text []]> (fs w);
                        listing := listing w; trace := trace w |}).
  cbv beta iota zeta. rewrite Hloop. reflexivity.
Qed.



End PackagerErrors.

Section PackagerErrorSamples.

Import Overlay ExtractionSpec ExtractionMore.

Ltac in_list H :=
  repeat (apply elem_of_cons in H as [->|H]); [..|by apply elem_of_nil in H].



End PackagerErrorSamples.

(* ===================================================================== *)
(** ** Further properties of the slice extraction *)
(* ===================================================================== *)

Section ExtractionMoreProperties.

Import Overlay ExtractionSpec ExtractionMore.

(** A turn of the loop with [save_labels] off: the catalog is not read. *)
Lemma save_slice_unlabelled mri seg out dict name view vl i w mp sp :
  plane mri view i = Return mp →
  plane seg view i = Return sp →
  save_slice mri seg out dict name false view vl i w
  = match slice_labels_of sp with
    | [] => (Return tt, w)
    | _ :: _ =>
        (Return tt,
         with_images (png_name out name vl i) (segment_name out name vl i)
           (mri_figure view mp) (seg_figure view sp) w)
    end.
Proof.
  intros Hm Hs. unfold save_slice. rewrite Hm, Hs.
  unfold lift at 1. unfold bind at 1. unfold lift at 1. unfold bind at 1.
  fold (slice_labels_of sp).
  destruct (slice_labels_of sp) as [|l0 ls] eqn:Hl; reflexivity.
Qed.



(** *** The names of the slice files *)

Lemma string_app_cons c s t : String c s +:+ t = String c (s +:+ t).
Proof. reflexivity. Qed.

Lemma string_app_length s t :
  String.length (s +:+ t) = (String.length s + String.length t)%nat.
Proof.
  induction s as [|c s IH]; [done|]. rewrite string_app_cons. simpl. by rewrite IH.
Qed.

Lemma string_app_assoc s t u : (s +:+ t) +:+ u = s +:+ (t +:+ u).
Proof.
  induction s as [|c s IH]; [done|]. rewrite !string_app_cons. by rewrite IH.
Qed.

Lemma string_app_inj_r t : ∀ s1 s2, s1 +:+ t = s2 +:+ t → s1 = s2.
Proof.
  induction s1 as [|c s1 IH]; intros [|c2 s2] Heq.
  - done.
  - apply (f_equal String.length) in Heq.
    rewrite !string_app_length in Heq. simpl in Heq. lia.
  - apply (f_equal String.length) in Heq.
    rewrite !string_app_length in Heq. simpl in Heq. lia.
  - rewrite !string_app_cons in Heq. injection Heq as -> Heq. f_equal. by apply IH.
Qed.

Lemma parse_nat_zero s :
  parse_nat (String "0" s) = parse_nat s.
Proof.
  unfold parse_nat. simpl.
  destruct (NilEmpty.uint_of_string s) as [d|]; reflexivity.
Qed.

Lemma parse_nat_zeros k s : parse_nat (zeros k +:+ s) = parse_nat s.
Proof.
  induction k as [|k IH]; [done|]. simpl zeros.
  by rewrite string_app_cons, parse_nat_zero.
Qed.

(** The number of a slice can be read back from how it is written. *)
Lemma parse_format_03d n : parse_nat (format_03d n) = Some n.
Proof.
  unfold format_03d. rewrite parse_nat_zeros. unfold parse_nat, str_of_nat.
  rewrite NilEmpty.usu. simpl. by rewrite DecimalNat.Unsigned.of_to.
Qed.

Lemma format_03d_inj n m : format_03d n = format_03d m → n = m.
Proof.
  intros Heq. apply (f_equal parse_nat) in Heq.
  rewrite !parse_format_03d in Heq. congruence.
Qed.

Lemma startswith_sep_app n r r' :
  startswith "/" (n +:+ String "_" r) = startswith "/" (n +:+ String "_" r').
Proof.
  destruct n as [|c n]; [done|]. rewrite !string_app_cons.
  unfold startswith. cbn [String.prefix].
  destruct (ascii_dec "/"%char c); [|done].
  by destruct (n +:+ String "_" r), (n +:+ String "_" r').
Qed.

Lemma path_join_inj out x y :
  startswith "/" x = startswith "/" y →
  path_join out x = path_join out y → x = y.
Proof.
  unfold path_join. intros <-. destruct (startswith "/" x); [done|].
  destruct out as [|c out]; [done|].
  destruct (endswith_sep (String c out)).
  - apply String.app_inj.
  - intros Heq. apply String.app_inj in Heq. by apply (String.app_inj "/") in Heq.
Qed.

(** X8: two slices of a scan that differ in the view or in the index have
    different file names, for the image as for the segmentation image: no
    slice is written over another. *)
Theorem slice_filename_inj out name vl vl' i i' suffix :
  vl ∈ view_labels → vl' ∈ view_labels →
  slice_filename out name vl i suffix = slice_filename out name vl' i' suffix →
  vl = vl' ∧ i = i'.
Proof.
  unfold slice_filename. intros Hvl Hvl' Heq.
  apply path_join_inj in Heq; [|apply startswith_sep_app].
  apply String.app_inj in Heq. apply (String.app_inj "_") in Heq.
  assert (Hsame : vl = vl').
  { unfold view_labels in *.
    repeat (apply elem_of_cons in Hvl as [->|Hvl]);
      [| | |by apply elem_of_nil in Hvl];
      repeat (apply elem_of_cons in Hvl' as [->|Hvl']);
      try (by apply elem_of_nil in Hvl'); try done; discriminate Heq. }
  subst vl'. split; [done|].
  apply String.app_inj in Heq. apply (String.app_inj "_") in Heq.
  apply string_app_inj_r in Heq. by apply format_03d_inj.
Qed.

Lemma slice_filename_inj_witness :
  slice_filename "slice_data" "cb2_s_301" "axial" 7 ".png"
  = "slice_data/cb2_s_301_axial_007.png"%string ∧
  ("axial"%string = "axial"%string ∧ 7%nat = 7%nat).
Proof.
  split; [reflexivity|].
  apply (slice_filename_inj "slice_data" "cb2_s_301" "axial" "axial" 7 7 ".png").
  - right. right. by left.
  - right. right. by left.
  - reflexivity.
Defined.

(** *** The label table *)

Lemma str_of_nat_nonempty k : str_of_nat k ≠ EmptyString.
Proof.
  unfold str_of_nat. intros Hempty.
  pose proof (NilEmpty.usu (Nat.to_uint k)) as Husu. rewrite Hempty in Husu.
  simpl in Husu. injection Husu as Hnil.
  pose proof (DecimalNat.Unsigned.of_to k) as Hof. rewrite <- Hnil in Hof.
  simpl in Hof. subst k. discriminate Hnil.
Qed.

(** [int] reads back what [str] writes of a natural number. *)
Lemma int_of_string_str_of_nat k : int_of_string (str_of_nat k) = Some (Z.of_nat k).
Proof.
  unfold int_of_string. pose proof (str_of_nat_nonempty k) as Hne.
  unfold str_of_nat in *. rewrite NilEmpty.usu.
  destruct (NilEmpty.string_of_uint (Nat.to_uint k)); [done|].
  by rewrite DecimalNat.Unsigned.of_to.
Qed.

Lemma dict_of_rows_last_wins rows entries :
  Forall2 (λ row (e : string * nat),
             row !! 0%nat = Some e.1 ∧ row !! 1%nat = Some (str_of_nat e.2))
    rows entries →
  ∀ m, ∃ d,
    dict_of_rows rows m = Some d ∧
    (∀ k, (∀ e, e ∈ entries → Z.of_nat e.2 ≠ k) → d !! k = m !! k) ∧
    (∀ pre name k post,
       entries = pre ++ (name, k) :: post →
       (∀ e, e ∈ post → e.2 ≠ k) →
       d !! Z.of_nat k = Some name).
Proof.
  induction 1 as [|row [name0 k0] rows entries [Hname Hkey] _ IH]; intros m.
  - exists m. split; [done|]. split; [done|].
    intros [|] ? ? ? Heq; discriminate Heq.
  - simpl in Hname, Hkey.
    destruct (IH (<[Z.of_nat k0 := name0]> m)) as (d & Hrun & Hother & Hlast).
    exists d. split; [|split].
    + cbn [dict_of_rows]. rewrite Hkey, Hname, int_of_string_str_of_nat. exact Hrun.
    + intros k Hk. rewrite Hother.
      * apply lookup_insert_ne. apply (Hk (name0, k0)). by left.
      * intros e He. apply Hk. by right.
    + intros pre name k post Heq Hpost. destruct pre as [|e pre].
      * simpl in Heq. injection Heq as -> -> ->.
        rewrite Hother; [apply lookup_insert_eq|].
        intros e He Hek. apply Nat2Z.inj in Hek. by apply (Hpost e).
      * simpl in Heq. injection Heq as _ Heq. by eapply Hlast.
Qed.

(** X9: the table built from rows whose second column writes a natural
    number: the first row, the header, is skipped whatever it holds; an
    index that no row has is not in the table; an index that rows have is
    mapped to the name of the last row that has it. *)
Theorem create_dict_from_csv_last_wins header rows entries :
  Forall2 (λ row (e : string * nat),
             row !! 0%nat = Some e.1 ∧ row !! 1%nat = Some (str_of_nat e.2))
    rows entries →
  ∃ d,
    create_dict_from_csv (header :: rows) = Some d ∧
    (∀ k, (∀ e, e ∈ entries → Z.of_nat e.2 ≠ k) → d !! k = None) ∧
    (∀ pre name k post,
       entries = pre ++ (name, k) :: post →
       (∀ e, e ∈ post → e.2 ≠ k) →
       d !! Z.of_nat k = Some name).
Proof.
  intros Hrows.
  destruct (dict_of_rows_last_wins rows entries Hrows ∅) as (d & Hrun & Hother & Hlast).
  exists d. split; [exact Hrun|]. split; [|exact Hlast].
  intros k Hk. by rewrite Hother.
Qed.

Lemma create_dict_from_csv_last_wins_witness :
  ∃ d, create_dict_from_csv
         [["Label"; "Index"]; ["Left-Hippocampus"; "17"];
          ["Right-Hippocampus"; "18"]; ["Hippocampus-L"; "17"; "note"]]%string
       = Some d ∧
       d !! 17 = Some "Hippocampus-L"%string ∧ d !! 19 = None.
Proof.
  destruct (create_dict_from_csv_last_wins ["Label"; "Index"]%string
              [["Left-Hippocampus"; "17"]; ["Right-Hippocampus"; "18"];
               ["Hippocampus-L"; "17"; "note"]]%string
              [("Left-Hippocampus", 17); ("Right-Hippocampus", 18);
               ("Hippocampus-L", 17)]%string%nat)
    as (d & Hrun & Hnone & Hlast).
  - repeat constructor.
  - exists d. split; [exact Hrun|]. split.
    + apply (Hlast [("Left-Hippocampus", 17); ("Right-Hippocampus", 18)]%string%nat
               "Hippocampus-L"%string 17%nat []); [reflexivity|].
      intros e He. by apply elem_of_nil in He.
    + apply Hnone. intros e He.
      repeat (apply elem_of_cons in He as [->|He]); [simpl; lia..|].
      by apply elem_of_nil in He.
Defined.

End ExtractionMoreProperties.

(* ===================================================================== *)
(** ** Properties of the directory and data set helpers *)
(* ===================================================================== *)

Section ScanDirectories.

Import Overlay OverlayTools ExtractionMore.

Lemma subdirs_of_run d es w :
  listing w !! d = Some es →
  subdirs_of d w = (Return (children w d), w).
Proof.
  intros H. unfold subdirs_of, children, listdir, bind, get, ret.
  by rewrite H.
Qed.

Lemma isdir_listed w d : isdir w d = true ↔ is_Some (listing w !! d).
Proof. unfold isdir. apply bool_decide_eq_true. Qed.

Lemma second_level_loop_run w : ∀ dirs acc,
  Forall (λ d, isdir w d = true) dirs →
  second_level_loop dirs acc w = (Return (acc ++ flat_map (children w) dirs), w).
Proof.
  induction dirs as [|d dirs IH]; intros acc Hdirs.
  - simpl. by rewrite app_nil_r.
  - apply Forall_cons in Hdirs as [Hd Hdirs].
    apply isdir_listed in Hd as [es Hes].
    cbn [second_level_loop flat_map].
    rewrite (bind_Return _ _ _ _ _ (subdirs_of_run d es w Hes)).
    rewrite IH by done. by rewrite app_assoc.
Qed.

Lemma children_isdir w d : Forall (λ p, isdir w p = true) (children w d).
Proof.
  apply Forall_forall. intros p Hp. unfold children in Hp.
  apply list_elem_of_In, filter_In in Hp. tauto.
Qed.

Lemma elem_of_children w d p :
  p ∈ children w d ↔
  ∃ es a, listing w !! d = Some es ∧ a ∈ map entry_name es ∧
          p = path_join d a ∧ is_Some (listing w !! p).
Proof.
  unfold children. rewrite list_elem_of_In, filter_In, <- list_elem_of_In.
  rewrite isdir_listed. split.
  - intros [Hp Hdir]. apply list_elem_of_fmap in Hp as (a & -> & Ha).
    destruct (listing w !! d) as [es|] eqn:Hes; [|by apply elem_of_nil in Ha].
    by exists es, a.
  - intros (es & a & Hes & Ha & -> & Hdir). split; [|done].
    rewrite Hes. by apply list_elem_of_fmap_2.
Qed.


End ScanDirectories.

Section ViewDatasets.

Import Overlay OverlayTools ExtractionSpec ExtractionMore.

Variable json_dumps : DatasetRecord → string.

Lemma prefix_app v : ∀ d x,
  String.prefix v d = true → String.prefix v (d +:+ x) = true.
Proof.
  induction v as [|c v IH]; intros d x H; [by destruct d, x|].
  destruct d as [|c' d]; [done|].
  rewrite string_app_cons. simpl in *.
  destruct (ascii_dec c c'); [by apply IH|done].
Qed.

Lemma contains_app_l v x : ∀ d,
  contains v d = true → contains v (d +:+ x) = true.
Proof.
  induction d as [|c d IH]; intros H.
  - simpl in H. rewrite orb_false_r in H. unfold startswith in H.
    destruct v; [by destruct x|done].
  - rewrite string_app_cons. simpl in *.
    apply orb_true_iff in H as [H|H]; apply orb_true_iff.
    + left. unfold startswith in *.
      by apply (prefix_app v (String c d) x).
    + right. by apply IH.
Qed.

Lemma contains_app_r v x : ∀ d,
  contains v x = true → contains v (d +:+ x) = true.
Proof.
  induction d as [|c d IH]; intros H; [done|].
  rewrite string_app_cons. simpl. apply orb_true_iff. right. by apply IH.
Qed.

(** The base name of a path has no separator in front. *)
Lemma cut_last_sep_head c p :
  fst (cut_last_sep (String c p)) = EmptyString → c ≠ "/"%char.
Proof.
  simpl. destruct (cut_last_sep p) as [[|? ?] t]; [|done].
  destruct (Ascii.eqb_spec c "/"); [done|]. done.
Qed.

Lemma basename_relative p : startswith "/" (basename p) = false.
Proof.
  unfold basename, startswith.
  induction p as [|c p IH]; [done|].
  simpl. destruct (cut_last_sep p) as [h t] eqn:Hcut.
  destruct h as [|c' h]; [|exact IH].
  destruct (Ascii.eqb_spec c "/") as [->|Hc]; cbn [snd].
  - destruct p as [|c2 p]; [done|].
    assert (c2 ≠ "/"%char) as Hc2.
    { apply (cut_last_sep_head c2 p). by rewrite Hcut. }
    cbn [String.prefix]. by destruct (ascii_dec "/" c2) as [<-|].
  - cbn [String.prefix]. by destruct (ascii_dec "/" c) as [<-|].
Qed.

Lemma path_join_suffix a b : ∃ pre, path_join a b = pre +:+ b.
Proof.
  unfold path_join. destruct (startswith "/" b); [by exists EmptyString|].
  destruct a as [|c a]; [by exists EmptyString|].
  destruct (endswith_sep (String c a)); [by eexists|].
  exists (String c a +:+ "/"). by rewrite string_app_assoc.
Qed.

Lemma contains_path_join v a b :
  startswith "/" b = false → contains v a = true →
  contains v (path_join a b) = true.
Proof.
  intros Hb Ha. unfold path_join. rewrite Hb.
  destruct a as [|c a].
  - simpl in Ha. rewrite orb_false_r in Ha. unfold startswith in Ha.
    destruct v; [by destruct b|done].
  - destruct (endswith_sep (String c a)).
    + by apply contains_app_l.
    + rewrite <- string_app_assoc. by do 2 apply contains_app_l.
Qed.

Lemma filter_all {A} (f : A → bool) l :
  (∀ x, x ∈ l → f x = true) → List.filter f l = l.
Proof.
  induction l as [|x l IH]; intros H; [done|].
  simpl. rewrite H by (by left). f_equal. apply IH. intros y Hy. apply H. by right.
Qed.

Lemma glob_png_run dir w :
  ∃ l, glob_png dir w = (Return l, w) ∧
       ∀ p, p ∈ l → is_Some (fs w !! p) ∧ copy_target dir p = p.
Proof.
  eexists. split; [reflexivity|]. intros p Hp.
  apply list_elem_of_In, filter_In in Hp as [Hp Hf].
  apply andb_true_iff in Hf as [Hf _]. apply andb_true_iff in Hf as [Hf _].
  apply String.eqb_eq in Hf. split; [|exact Hf].
  apply list_elem_of_In, list_elem_of_fmap in Hp as ([q f] & -> & Hq).
  apply elem_of_map_to_list in Hq. by exists f.
Qed.

Lemma get_image_files_run dir view w :
  get_image_files_for_dataset dir view w = (Return (selected dir view w), w).
Proof.
  unfold selected. unfold get_image_files_for_dataset, glob_png, bind, get, ret.
  reflexivity.
Qed.

Lemma selected_sub dir view w p :
  p ∈ selected dir view w →
  is_Some (fs w !! p) ∧ copy_target dir p = p ∧ contains "SEGMENT" p = false.
Proof.
  destruct (glob_png_run dir w) as (l & Hl & Hsub).
  unfold selected, get_image_files_for_dataset.
  rewrite (bind_Return _ _ _ _ _ Hl). unfold ret.
  intros Hp.
  assert (p ∈ List.filter (λ img, negb (contains "SEGMENT" img)) l) as Hp'.
  { repeat case_match; try done;
      by apply list_elem_of_In, filter_In in Hp as [Hp%list_elem_of_In _]. }
  apply list_elem_of_In, filter_In in Hp' as [Hp'%list_elem_of_In Hseg].
  apply negb_true_iff in Hseg. destruct (Hsub p Hp'). done.
Qed.





End ViewDatasets.

Section ViewDatasetSamples.

Import Overlay OverlayTools ExtractionSpec ExtractionMore.


End ViewDatasetSamples.

Section SkippedSessions.

Import Overlay ExtractionSpec ExtractionMore.

Lemma filter_raising_digits names :
  Forall (λ x, x ≠ EmptyString) names →
  filter_raising starts_with_digit names = Return (List.filter digit_first names).
Proof.
  induction names as [|x names IH]; intros H; [done|].
  apply Forall_cons in H as [Hx H]. simpl. rewrite (IH H).
  destruct x as [|c x]; [done|]. simpl. by destruct (isdigit c).
Qed.

Lemma scan_loop_prints d subj_id sess_id : ∀ ids loc w,
  ∃ w' loc',
    scan_loop d subj_id sess_id loc ids w = (Return loc', w') ∧
    fs w' = fs w ∧ listing w' = listing w ∧
    trace w' = trace w ++ map Print (map (MsgIds subj_id sess_id) ids) ∧
    ∀ id, last ids = Some id →
          matching_files loc'
          = Some (glob_matches d id (default [] (listing w !! d))).
Proof.
  induction ids as [|id0 ids IH]; intros loc w.
  - exists w, loc. simpl. rewrite app_nil_r. done.
  - set (w1 := {| fs := fs w; listing := listing w;
                  trace := trace w ++ [Print (MsgIds subj_id sess_id id0)] |}).
    set (loc1 := {| matching_files :=
                      Some (glob_matches d id0 (default [] (listing w !! d)));
                    scan_id := Some id0;
                    seg_path := seg_path loc; mri_path := mri_path loc |}).
    destruct (IH loc1 w1) as (w2 & loc2 & Hrun & Hfs & Hl & Htr & Hlast).
    exists w2, loc2. split; [exact Hrun|]. split; [done|]. split; [done|].
    split.
    + rewrite Htr. simpl. by rewrite <- app_assoc.
    + intros id Hid. destruct ids as [|id1 ids].
      * simpl in Hid. injection Hid as <-.
        simpl in Hrun. injection Hrun as <- _. reflexivity.
      * apply Hlast. exact Hid.
Qed.

Lemma last_scan_files_listing w w' d :
  listing w' = listing w → last_scan_files w' d = last_scan_files w d.
Proof. unfold last_scan_files. by intros ->. Qed.

Lemma skipped_listing w w' d :
  listing w' = listing w → skipped w d → skipped w' d.
Proof.
  intros Hl (es & Hes & Hne & Hn). exists es. rewrite Hl.
  split; [done|]. split; [done|].
  intros files. rewrite (last_scan_files_listing w w' d Hl). apply Hn.
Qed.

Lemma process_dir_skipped dict out total i loc d w :
  skipped w d →
  ∃ w' loc' msgs,
    process_dir dict out total i loc d w = (Return loc', w') ∧
    fs w' = fs w ∧ listing w' = listing w ∧
    trace w' = trace w ++ map Print msgs ∧
    MsgProcessing d (total - i) ∈ msgs ∧
    ∀ files, last_scan_files w d = Some files →
             MsgWarning d (length files) ∈ msgs.
Proof.
  intros (es & Hes & Hne & Hn).
  set (w1 := {| fs := fs w; listing := listing w;
                trace := trace w ++ [Print (MsgProcessing d (total - i))] |}).
  assert (Hprint : print (MsgProcessing d (total - i)) w = (Return tt, w1))
    by reflexivity.
  unfold process_dir.
  rewrite (bind_Return _ _ _ _ _ Hprint).
  destruct (path_split d) as [path sess_id].
  destruct (path_split path) as [path' subj_id].
  assert (Hls : listdir d w1 = (Return (map entry_name es), w1)).
  { unfold listdir, bind, get, ret. simpl. by rewrite Hes. }
  rewrite (bind_Return _ _ _ _ _ Hls).
  assert (Hflt : lift (filter_raising starts_with_digit (map entry_name es)) w1
                 = (Return (List.filter digit_first (map entry_name es)), w1)).
  { unfold lift. rewrite filter_raising_digits; [done|].
    apply Forall_fmap. exact Hne. }
  rewrite (bind_Return _ _ _ _ _ Hflt).
  fold (scan_ids_of es).
  unfold last_scan_files in *. rewrite Hes in *.
  destruct (scan_ids_of es) as [|id0 ids] eqn:Hids.
  - exists w1, loc, [MsgProcessing d (total - i)].
    split; [done|]. split; [done|]. split; [done|]. split; [done|].
    split; [by left|]. intros files Hfiles. discriminate.
  - destruct (scan_loop_prints d subj_id sess_id (id0 :: ids) loc w1)
      as (w2 & loc2 & Hrun & Hfs & Hl & Htr & Hlast).
    rewrite (bind_Return _ _ _ _ _ Hrun).
    destruct (last (id0 :: ids)) as [idl|] eqn:Hidl;
      [|by apply last_None in Hidl].
    specialize (Hlast idl eq_refl). simpl in Hlast. rewrite Hes in Hlast.
    simpl in Hlast. rewrite Hlast.
    set (files := glob_matches d idl es) in *.
    assert (Hlocal : local "matching_files" (Some files) w2 = (Return files, w2))
      by reflexivity.
    rewrite (bind_Return _ _ _ _ _ Hlocal).
    assert (Htest : (length files =? 0)%nat || (2 <? length files)%nat = true).
    { destruct (Hn files eq_refl) as [H0|H2].
      - rewrite H0. reflexivity.
      - apply orb_true_iff. right. apply Nat.ltb_lt. exact H2. }
    rewrite Htest.
    eexists _, loc2,
      (MsgProcessing d (total - i) :: map (MsgIds subj_id sess_id) (id0 :: ids)
         ++ [MsgWarning d (length files)]).
    split; [reflexivity|]. simpl. split; [done|]. split; [done|]. split.
    + rewrite Htr. simpl. rewrite map_app. simpl.
      rewrite <- !app_assoc. reflexivity.
    + split; [by left|]. intros files' Hfiles'. injection Hfiles' as <-.
      right. right. apply elem_of_app. right. by left.
Qed.

Lemma process_loop_skipped dict out total : ∀ dirs i loc w,
  Forall (skipped w) dirs →
  ∃ w' msgs,
    process_loop dict out total i loc dirs w = (Return tt, w') ∧
    fs w' = fs w ∧ listing w' = listing w ∧
    trace w' = trace w ++ map Print msgs ∧
    (∀ k d, dirs !! k = Some d → MsgProcessing d (total - (i + k)) ∈ msgs) ∧
    (∀ d files, d ∈ dirs → last_scan_files w d = Some files →
                MsgWarning d (length files) ∈ msgs).
Proof.
  induction dirs as [|d dirs IH]; intros i loc w Hskip.
  - exists w, []. simpl. rewrite app_nil_r. split; [done|]. split; [done|].
    split; [done|]. split; [done|]. split; [done|].
    intros d files Hd. by apply elem_of_nil in Hd.
  - apply Forall_cons in Hskip as [Hd Hskip].
    destruct (process_dir_skipped dict out total i loc d w Hd)
      as (w1 & loc1 & msgs1 & Hrun1 & Hfs1 & Hl1 & Htr1 & Hproc1 & Hwarn1).
    destruct (IH (S i) loc1 w1) as (w2 & msgs2 & Hrun2 & Hfs2 & Hl2 & Htr2 & Hproc2 & Hwarn2).
    { eapply Forall_impl; [exact Hskip|]. intros x. by apply skipped_listing. }
    exists w2, (msgs1 ++ msgs2). cbn [process_loop].
    rewrite (bind_Return _ _ _ _ _ Hrun1).
    split; [exact Hrun2|]. split; [congruence|]. split; [congruence|]. split.
    + rewrite Htr2, Htr1, map_app, <- app_assoc. reflexivity.
    + split.
      * intros [|k] x Hx; apply elem_of_app.
        -- simpl in Hx. injection Hx as <-. left. by rewrite Nat.add_0_r.
        -- right. replace (i + S k)%nat with (S i + k)%nat by lia.
           by apply Hproc2.
      * intros x files Hx Hfiles. apply elem_of_app.
        apply elem_of_cons in Hx as [->|Hx].
        -- left. by apply Hwarn1.
        -- right. apply Hwarn2; [done|].
           by rewrite (last_scan_files_listing w w1 x Hl1).
Qed.



End SkippedSessions.

Section MainPackaging.

Import Overlay OverlayTools ExtractionSpec ExtractionMore.

Variable json_dumps : DatasetRecord → string.


End MainPackaging.

Section MainPackagingSample.

Import Overlay OverlayTools ExtractionSpec ExtractionMore.


End MainPackagingSample.
